(** * bctl/common.py: configuration, persisted state, command runner, supervisor

    A shallow embedding of [src/bctl/common.py] and the properties its
    specification states about it.

    Conventions of the embedding
    - A Python [str] is a Rocq [string] holding its UTF-8 encoding.
    - A Python [int] is a [Z]; a [float] is a binary64 [PrimFloat.float].
    - A value decoded from JSON is a [json]; a mapping with string keys is a
      [gmap string json], so that equality of mappings is Python's [==]
      (insensitive to insertion order).
    - A call that may raise returns a [result]; code that also changes the
      world (files, log, cancellation requests) threads that state. *)

From Stdlib Require Import ZArith Strings.Ascii Strings.String Strings.Byte.
From Corelib Require Import PrimFloat SpecFloat FloatOps.
From stdpp Require Import base option list strings gmap fin_maps.

Set Warnings "-inexact-float,-register-all".
Local Open Scope string_scope.
Local Open Scope list_scope.
Local Open Scope Z_scope.

(* ===================================================================== *)
(** ** Exceptions and fallible computations *)
(* ===================================================================== *)

(** The exceptions that the modelled code and the library calls it makes can
    raise. [TaskError n] stands for the application-level failure number [n]
    of a supervised task. *)
Inductive exn :=
| KeyError (key : string)
| AttributeError
| TypeError
| ValueError
| OverflowError
| UnboundLocalError
| InvalidStateError
| AssertionError
| CancelledError
| UnicodeDecodeError
| JSONDecodeError
| IOError
| RuntimeError (cmd : list string) (returncode : Z)
| TaskError (n : nat).

Global Instance exn_eq_dec : EqDecision exn.
Proof. solve_decision. Defined.

Inductive result (A : Type) :=
| Ok (a : A)
| Raise (e : exn).
Arguments Ok {A} a.
Arguments Raise {A} e.

Global Instance result_ret : MRet result := λ A a, Ok a.
Global Instance result_bind : MBind result := λ A B f m,
  match m with
  | Ok a => f a
  | Raise e => Raise e
  end.

Definition is_ok {A} (r : result A) : bool :=
  match r with Ok _ => true | Raise _ => false end.

(* ===================================================================== *)
(** ** Python values *)
(* ===================================================================== *)

(** What [json.load] produces, which is also what the configuration and the
    state hold: [None], [bool], [int], [float], [str], [list], and [dict]
    with string keys. *)
Inductive json :=
| JNull
| JBool (b : bool)
| JInt (z : Z)
| JFloat (f : float)
| JStr (s : string)
| JList (l : list json)
| JDict (d : gmap string json).

(** A leaf is a value that is neither a mapping nor a sequence. *)
Definition is_leaf (v : json) : bool :=
  match v with
  | JList _ | JDict _ => false
  | _ => true
  end.

(** Keys of the top-level configuration object. The defaults and a JSON
    object only have string keys; integer keys appear when the override file
    holds a JSON array, whose positions [py_.merge] then uses as keys. *)
Inductive pykey :=
| KStr (s : string)
| KInt (i : nat).

Global Instance pykey_eq_dec : EqDecision pykey.
Proof. solve_decision. Defined.

Global Instance pykey_countable : Countable pykey.
Proof.
  refine (inj_countable'
            (λ k, match k with KStr s => inl s | KInt i => inr i end)
            (λ x, match x with inl s => KStr s | inr i => KInt i end) _).
  by intros [].
Defined.

Global Instance KStr_inj : Inj (=) (=) KStr.
Proof. by intros ?? [= ->]. Qed.

(** [dict.get(key, default)]: an [AttributeError] on a value that is not a
    mapping ([None], numbers, strings and lists have no [get]). *)
Definition py_get (obj : json) (key : string) (dflt : json) : result json :=
  match obj with
  | JDict d => Ok (default dflt (d !! key))
  | _ => Raise AttributeError
  end.

(** *** Numbers *)

(** [float(z)]: the nearest binary64, [OverflowError] beyond its range. *)
Definition float_of_int (z : Z) : result float :=
  let f := SF2Prim (binary_normalize prec emax z 0 false) in
  if PrimFloat.is_infinity f then Raise OverflowError else Ok f.

(** [a - b] for an [int] [a]: [bool] is a subclass of [int]; a [float]
    operand converts [a]; every other JSON value is a [TypeError]. *)
Definition py_int_sub (a : Z) (b : json) : result json :=
  match b with
  | JInt z => Ok (JInt (a - z))
  | JBool c => Ok (JInt (a - Z.b2z c))
  | JFloat f => fa ← float_of_int a; Ok (JFloat (PrimFloat.sub fa f))
  | _ => Raise TypeError
  end.

(** [x <= k] for a number [x] and a small [int] [k] (exactly a float). *)
Definition py_le_int (x : json) (k : Z) : result bool :=
  match x with
  | JInt z => Ok (z <=? k)
  | JBool c => Ok (Z.b2z c <=? k)
  | JFloat f => fk ← float_of_int k; Ok (PrimFloat.leb f fk)
  | _ => Raise TypeError
  end.

(** [x == k] for an [int] [k]: never raises; [True == 1] and [1.0 == 1]. *)
Definition py_eq_int (x : json) (k : Z) : bool :=
  match x with
  | JInt z => z =? k
  | JBool c => Z.b2z c =? k
  | JFloat f => match float_of_int k with
                | Ok fk => PrimFloat.eqb f fk
                | Raise _ => false
                end
  | _ => false
  end.

(* ===================================================================== *)
(** ** pydash's [merge] *)
(* ===================================================================== *)

(** [py_.merge(obj, source)] walks the items of [source] (the entries of a
    mapping, the enumerated elements of a list) and, for each key, stores
    into [obj] either the recursive merge (both values lists, or both
    mappings) or the source value. *)

(** The value stored for one item: [obj_value] is [base_get(obj, key)],
    [None] when [obj] has no such key or index. *)
Definition merge_item (rec : json → json → json)
    (obj_value : option json) (src_value : json) : json :=
  match obj_value, src_value with
  | Some (JList a), JList _ => rec (JList a) src_value
  | Some (JDict a), JDict _ => rec (JDict a) src_value
  | _, _ => src_value
  end.

(** [base_set] on a mapping. *)
Definition set_merged {K} `{Countable K} (rec : json → json → json)
    (key : K) (src_value : json) (obj : gmap K json) : gmap K json :=
  <[key := merge_item rec (obj !! key) src_value]> obj.

(** [base_set] on a list: assignment inside the list; at or past its end the
    list is padded with [None] up to the index and the value appended. *)
Definition base_set_list (obj : list json) (key : nat) (value : json) : list json :=
  if decide (key < length obj)%nat then <[key := value]> obj
  else take key (obj ++ replicate key JNull) ++ [value].

(** The loop over [enumerate(source)] for two lists. *)
Definition merge_seq (rec : json → json → json) (obj source : list json) : list json :=
  snd (fold_left
         (λ '(i, acc) src_value,
            (S i, base_set_list acc i (merge_item rec (acc !! i) src_value)))
         source (0%nat, obj)).

(** The loop over [source.items()] for two mappings. *)
Definition merge_map (rec : json → json → json) (obj source : gmap string json)
    : gmap string json :=
  map_fold (set_merged rec) obj source.

(** [_merge_with(obj, source)] as the recursion reaches it: [merge_item]
    only recurses on two lists or on two mappings, and no other pair of
    shapes gets here. *)
Fixpoint _merge_with (obj source : json) {struct source} : json :=
  match source, obj with
  | JDict s, JDict o => JDict (merge_map _merge_with o s)
  | JList s, JList o => JList (merge_seq _merge_with o s)
  | _, _ => obj
  end.

(** The characters of a string: each byte that is no UTF-8 continuation
    byte, with the continuation bytes that follow it. *)
Definition is_continuation (a : ascii) : bool :=
  let n := N_of_ascii a in ((128 <=? n) && (n <=? 191))%N.

Fixpoint str_chars (s : string) : list string :=
  match s with
  | EmptyString => []
  | String a rest =>
      match rest with
      | String b _ =>
          if is_continuation b then
            match str_chars rest with
            | c :: cs => String a c :: cs
            | [] => [String a EmptyString]
            end
          else String a EmptyString :: str_chars rest
      | EmptyString => [String a EmptyString]
      end
  end.

(** The loop over [enumerate(source)] into a mapping: the positions become
    integer keys. *)
Definition merge_enumerated (obj : gmap pykey json) (items : list json)
    : gmap pykey json :=
  snd (fold_left
         (λ '(i, acc) src_value, (S i, set_merged _merge_with (KInt i) src_value acc))
         items (0%nat, obj)).

(** [py_.merge(conf, source)] at the configuration object, a mapping with
    string keys when the call is made. The items of a mapping are its
    entries; any other iterable, a list or a string, is enumerated; [None],
    a number or a boolean has no items. *)
Definition py_merge (obj : gmap pykey json) (source : json) : gmap pykey json :=
  match source with
  | JDict s => map_fold (λ k, set_merged _merge_with (KStr k)) obj s
  | JList s => merge_enumerated obj s
  | JStr s => merge_enumerated obj (JStr <$> str_chars s)
  | _ => obj
  end.

(* ===================================================================== *)
(** ** The process environment, the clock and the file system *)
(* ===================================================================== *)

(** [os.environ] is a [gmap string string]; the clock is the integer
    [unix_time_now()] returns, passed to the functions that read it. *)

(** The text of a file, up to what [json.load] makes of it: the value it
    decodes to, or no JSON document at all. [json.dumps] writes a text that
    [json.load] reads back as the same value; its [indent], [sort_keys] and
    [separators] arguments choose among texts of one value. *)
Inductive content :=
| JsonText (v : json)
| Garbage.

Definition json_dumps (v : json) : content := JsonText v.

Definition json_load (c : content) : result json :=
  match c with
  | JsonText v => Ok v
  | Garbage => Raise JSONDecodeError
  end.

(** A path names a regular file with its permission bits, or something that
    cannot be opened for writing and is no regular file (a directory, a path
    below a missing or read-only directory). A regular file that may be
    opened for writing can still refuse the data: [NoSpace] is such a file,
    on a device with no room left or under a limit on the size of files. A
    path with no entry is free: opening it for writing creates a regular
    file the process may read. The process holds no open descriptors, so an
    integer used as a path names none. *)
Inductive node :=
| Regular (readable writable : bool) (c : content)
| Blocked
| NoSpace (readable : bool) (c : content).

(** [os.path.isfile(p) and os.access(p, os.R_OK)], with the text at hand. *)
Definition readable_file (fs : gmap string node) (p : string) : option content :=
  match fs !! p with
  | Some (Regular true _ c) | Some (NoSpace true c) => Some c
  | _ => None
  end.

(** [open(path, 'w')] followed by [write(payload)] and the close. When the
    open fails nothing is changed. When it succeeds the file is emptied, or
    created, before anything is written: a write that then fails leaves
    less than the payload in the file, which is no JSON document, since the
    payload is one object and its closing brace comes last. *)
Definition file_write (fs : gmap string node) (path : json) (payload : content)
    : result unit * gmap string node :=
  match path with
  | JStr p =>
      match fs !! p with
      | None => (Ok (), <[p := Regular true true payload]> fs)
      | Some (Regular r true _) => (Ok (), <[p := Regular r true payload]> fs)
      | Some (NoSpace r _) => (Raise IOError, <[p := NoSpace r Garbage]> fs)
      | Some _ => (Raise IOError, fs)
      end
  | JInt _ | JBool _ => (Raise IOError, fs)
  | _ => (Raise TypeError, fs)
  end.

(* ===================================================================== *)
(** ** Configuration and persisted state *)
(* ===================================================================== *)

Definition STATE_VER : Z := 1.
Definition TIME_DIFF_DELTA_THRESHOLD_S : Z := 60.

(** [os.environ[key]]. *)
Definition environ_getitem (env : gmap string string) (key : string) : result string :=
  match env !! key with
  | Some v => Ok v
  | None => Raise (KeyError key)
  end.

(** The default passed to [os.environ.get] is an argument: Python evaluates
    [os.environ["HOME"]] before the call, whether or not [XDG_CONFIG_DIR]
    is set. *)
Definition _conf_path (env : gmap string string) : result string :=
  home ← environ_getitem env "HOME";
  let xdg_dir := default (home +:+ "/.config") (env !! "XDG_CONFIG_DIR") in
  Ok (xdg_dir +:+ "/bctl/config.json").

Definition EMPTY_STATE : json :=
  JDict {[ "timestamp" := JInt 0;
           "ver" := JInt (-1);
           "last_set_brightness" := JInt (-1) ]}.

(** The defaults of [load_config]. *)
Definition default_notify : json :=
  JDict (list_to_map [
    ("enabled", JBool true);
    ("on_fatal_err", JBool true);
    ("err_icon", JStr "gtk-dialog-error");
    ("icon_root", JStr EmptyString);
    ("brightness_full", JStr "notification-display-brightness-full.svg");
    ("brightness_high", JStr "notification-display-brightness-high.svg");
    ("brightness_medium", JStr "notification-display-brightness-medium.svg");
    ("brightness_low", JStr "notification-display-brightness-low.svg");
    ("brightness_off", JStr "notification-display-brightness-off.svg");
    ("timeout_ms", JInt 4000) ]).

Definition default_items : list (string * json) := [
    ("log_lvl", JStr "INFO");
    ("ddcutil_bus_path_prefix", JStr "/dev/i2c-");
    ("ddcutil_brightness_feature", JStr "10");
    ("ddcutil_svcp_flags", JList [JStr "--skip-ddc-checks"]);
    ("ddcutil_gvcp_flags", JList []);
    ("monitor_udev", JBool true);
    ("periodic_init_sec", JInt 0);
    ("sync_brightness", JBool false);
    ("notify", default_notify);
    ("udev_event_debounce_sec", JFloat 3.0);
    ("msg_consumption_window_sec", JFloat 0.1);
    ("brightness_step", JInt 5);
    ("ignored_displays", JList []);
    ("ignore_internal_display", JBool false);
    ("ignore_external_display", JBool false);
    ("main_display_ctl", JStr "DDCUTIL");
    ("internal_display_ctl", JStr "RAW");
    ("raw_device_dir", JStr "/sys/class/backlight");
    ("fatal_exit_code", JInt 100);
    ("socket_path", JStr "/tmp/.bctld-ipc.sock");
    ("sim", JNull);
    ("state_f_path", JStr "/tmp/.bctld.state");
    ("state", JNull) ].

Definition default_conf : gmap pykey json :=
  list_to_map (prod_map KStr id <$> default_items).

(** [_read_dict_from_file]: the empty mapping unless the path is a readable
    regular file whose text parses, and then whatever the text decodes to,
    mapping or not (the error logged for a text that does not parse is left
    out). The path checks raise [TypeError] on a path that is neither a
    string nor an integer. *)
Definition _read_dict_from_file (fs : gmap string node) (file_loc : json) : result json :=
  match file_loc with
  | JStr p =>
      match readable_file fs p with
      | None => Ok (JDict ∅)
      | Some c =>
          match json_load c with
          | Ok v => Ok v
          | Raise _ => Ok (JDict ∅)
          end
      end
  | JInt _ | JBool _ => Ok (JDict ∅)
  | _ => Raise TypeError
  end.

Definition _load_state (fs : gmap string node) (now : Z) (file_loc : json) : result json :=
  s ← _read_dict_from_file fs file_loc;
  t ← py_get s "timestamp" (JInt 0);
  v ← py_get s "ver" (JInt (-1));
  age ← py_int_sub now t;
  fresh ← py_le_int age TIME_DIFF_DELTA_THRESHOLD_S;
  if fresh && py_eq_int v STATE_VER then Ok s else Ok EMPTY_STATE.

(** [conf[key]] on the configuration object. *)
Definition conf_getitem (conf : gmap pykey json) (key : string) : result json :=
  match conf !! KStr key with
  | Some v => Ok v
  | None => Raise (KeyError key)
  end.

Definition load_config (env : gmap string string) (fs : gmap string node) (now : Z)
    (load_state : bool) : result (gmap pykey json) :=
  path ← _conf_path env;
  override ← _read_dict_from_file fs (JStr path);
  let conf := py_merge default_conf override in
  if load_state then
    state_f_path ← conf_getitem conf "state_f_path";
    state ← _load_state fs now state_f_path;
    Ok (<[KStr "state" := state]> conf)
  else Ok conf.

(** [write_state]: the record is built first ([conf.get] gives [None] for
    a missing key), then serialised and written; an [IOError] of the write
    is raised again as it is. *)
Definition write_state (conf : gmap pykey json) (now : Z) (fs : gmap string node)
    : result unit * gmap string node :=
  match py_get (default JNull (conf !! KStr "state")) "last_set_brightness" JNull with
  | Raise e => (Raise e, fs)
  | Ok last_set_brightness =>
      let data := JDict {[ "timestamp" := JInt now;
                           "ver" := JInt STATE_VER;
                           "last_set_brightness" := last_set_brightness ]} in
      let statef := default JNull (conf !! KStr "state_f_path") in
      let payload := json_dumps data in
      file_write fs statef payload
  end.

(* ===================================================================== *)
(** ** The command runner *)
(* ===================================================================== *)

(** [bytes.decode()]: strict UTF-8. A well-formed sequence is one or more of
    the byte patterns of the Unicode standard (no overlong forms, no
    surrogates, nothing above U+10FFFF). *)
Definition utf8_cont (b : N) : bool := ((128 <=? b) && (b <=? 191))%N.

Fixpoint utf8_valid (bs : list N) : bool :=
  match bs with
  | [] => true
  | b0 :: r0 =>
      if (b0 <=? 127)%N then utf8_valid r0 else
      match r0 with
      | [] => false
      | b1 :: r1 =>
          if ((194 <=? b0) && (b0 <=? 223))%N then utf8_cont b1 && utf8_valid r1 else
          match r1 with
          | [] => false
          | b2 :: r2 =>
              if ((224 <=? b0) && (b0 <=? 239))%N then
                ((if (b0 =? 224)%N then (160 <=? b1) && (b1 <=? 191)
                  else if (b0 =? 237)%N then (128 <=? b1) && (b1 <=? 159)
                  else utf8_cont b1)%N)
                && utf8_cont b2 && utf8_valid r2
              else
              match r2 with
              | [] => false
              | b3 :: r3 =>
                  if ((240 <=? b0) && (b0 <=? 244))%N then
                    ((if (b0 =? 240)%N then (144 <=? b1) && (b1 <=? 191)
                      else if (b0 =? 244)%N then (128 <=? b1) && (b1 <=? 143)
                      else utf8_cont b1)%N)
                    && utf8_cont b2 && utf8_cont b3 && utf8_valid r3
                  else false
              end
          end
      end
  end.

Definition bytes_decode (bs : list byte) : result string :=
  if utf8_valid (Byte.to_N <$> bs) then Ok (string_of_list_byte bs)
  else Raise UnicodeDecodeError.

(** The [cmd] argument: one string to be split, or the argument vector. *)
Inductive cmd_arg :=
| CmdStr (s : string)
| CmdArgs (args : list string).

(** What becomes of the child process: it cannot be started, or it runs to
    completion with its two captured streams and its exit status. *)
Inductive proc_result :=
| SpawnFails (e : exn)
| Exited (stdout stderr : list byte) (returncode : Z).

(** An entry of the log sink: [logger.error(f'{cmd} returned w/ {rc}')]. *)
Inductive log_entry :=
| LogError (cmd : list string) (returncode : Z).

Section run_cmd.
(** [str.split()] and the operating system's answer to
    [create_subprocess_exec] on the argument vector, followed by
    [communicate()]. *)
Variable str_split : string → list string.
Variable subprocess_exec : list string → proc_result.

(** [logger] tells whether a log sink was supplied; the second component
    of the result lists what was logged to it. *)
Definition run_cmd (cmd : cmd_arg) (throw_on_err : bool) (logger : bool)
    : result (string * string * Z) * list log_entry :=
  let cmd := match cmd with CmdStr s => str_split s | CmdArgs args => args end in
  match subprocess_exec cmd with
  | SpawnFails e => (Raise e, [])
  | Exited stdout stderr returncode =>
      let failed := bool_decide (returncode ≠ 0) in
      let logged := if failed && logger then [LogError cmd returncode] else [] in
      if failed && throw_on_err then (Raise (RuntimeError cmd returncode), logged)
      else (out ← bytes_decode stdout;
            err ← bytes_decode stderr;
            Ok (out, err, returncode), logged)
  end.
End run_cmd.

(* ===================================================================== *)
(** ** The task supervisor *)
(* ===================================================================== *)

(** A task handle, and how a finished task finished. *)
Definition task := nat.

Inductive completion :=
| Returned
| Failed (e : exn)
| WasCancelled.

(** What the [await asyncio.wait(...)] line does: it returns the two sets
    [(done, pending)], listed in the order in which the code will iterate
    over them, or an exception is raised at it. *)
Inductive wait_result :=
| WaitReturns (done pending : list task)
| WaitRaises (e : exn).

(** [task.exception()], on the state of the task: [None] for a task that is
    not finished. *)
Definition task_exception (st : option completion) : result (option exn) :=
  match st with
  | None => Raise InvalidStateError
  | Some Returned => Ok None
  | Some (Failed e) => Ok (Some e)
  | Some WasCancelled => Raise CancelledError
  end.

(** [for task in done: if exc := task.exception(): raise exc]; an exception
    object is always true. *)
Fixpoint reraise_first (status : task → option completion) (done : list task)
    : result unit :=
  match done with
  | [] => Ok ()
  | t :: rest =>
      exc ← task_exception (status t);
      match exc with
      | Some e => Raise e
      | None => reraise_first status rest
      end
  end.

(** What a caller may pass as [futures], an [Iterable[Task]]: a collection
    (a list, a tuple, a set), which yields its tasks every time it is
    iterated, or an iterator (what [iter], [map] or [filter] return), which
    yields them once and nothing from then on. *)
Inductive iterable :=
| Collection (ts : list task)
| Iterator (ts : list task).

(** The tasks that the first iteration over [futures] yields. *)
Definition tasks_of (futures : iterable) : list task :=
  match futures with
  | Collection ts | Iterator ts => ts
  end.

(** The tasks that an iteration over [futures] yields once [futures] has
    been iterated to its end. *)
Definition iterate_again (futures : iterable) : list task :=
  match futures with
  | Collection ts => ts
  | Iterator _ => []
  end.

(** [wait_and_reraise]: the outcome for the caller, and the tasks on which
    [cancel()] was called, in order. [asyncio.wait] builds a set from
    [futures] before it waits, so when a [CancelledError] is raised at its
    [await] the loop over [tasks_to_cancel], which is [futures] itself,
    iterates [futures] for the second time. [tasks_to_cancel] is unbound
    when the wait raises anything but a [CancelledError]. *)
Definition wait_and_reraise (status : task → option completion)
    (futures : iterable) (w : wait_result) : result unit * list task :=
  let '(waited, tasks_to_cancel) :=
    match w with
    | WaitReturns done pending => (Ok done, Some pending)
    | WaitRaises e =>
        (Raise e,
         if decide (e = CancelledError) then Some (iterate_again futures) else None)
    end in
  match tasks_to_cancel with
  | None => (Raise UnboundLocalError, [])
  | Some ts => (done ← waited; reraise_first status done, ts)
  end.

(** *** [asyncio.wait] with a timeout and [FIRST_EXCEPTION] *)

(** Time is counted in milliseconds from the call. A schedule tells, for
    each task, when and how it finishes if nobody cancels it. *)
Definition WAIT_TIMEOUT : nat := 5000.

Definition status_at (sched : task → option (nat * completion)) (now : nat) (t : task)
    : option completion :=
  match sched t with
  | Some (at_, c) => if (at_ <=? now)%nat then Some c else None
  | None => None
  end.

Definition failure_time (sched : task → option (nat * completion)) (t : task)
    : option nat :=
  match sched t with
  | Some (at_, Failed _) => Some at_
  | _ => None
  end.

(** When all of [fs] have finished, if they all do. *)
Definition all_finished_time (sched : task → option (nat * completion))
    (fs : list task) : option nat :=
  max_list <$> mapM (λ t, fst <$> sched t) fs.

(** The wait ends at the first failure, when every task has finished, or
    when the timeout expires, whichever comes first. *)
Definition wake_time (sched : task → option (nat * completion)) (fs : list task) : nat :=
  foldr Nat.min WAIT_TIMEOUT
        (omap (failure_time sched) fs ++ option_list (all_finished_time sched fs)).

(** One run of the wait. An empty collection is false and refused with a
    [ValueError]; an empty iterator is true, as any object is, and the set
    built from it is empty, at which the assertion of the wait fails. The
    supervisor's own cancellation at [cancel_at], if it comes before the
    wait ends, is a [CancelledError] at the [await]; otherwise the tasks are
    split into those finished by then and the rest. The second component is
    the time at which the [await] ends. *)
Definition asyncio_wait_run (sched : task → option (nat * completion))
    (cancel_at : option nat) (futures : iterable) : wait_result * nat :=
  match futures with
  | Collection [] => (WaitRaises ValueError, 0%nat)
  | Iterator [] => (WaitRaises AssertionError, 0%nat)
  | _ =>
      let fs := tasks_of futures in
      let wake := wake_time sched fs in
      let tasks := remove_dups fs in
      let returns :=
        (WaitReturns (filter (λ t, is_Some (status_at sched wake t)) tasks)
                     (filter (λ t, status_at sched wake t = None) tasks), wake) in
      match cancel_at with
      | Some c => if (c <? wake)%nat then (WaitRaises CancelledError, c) else returns
      | None => returns
      end
  end.

(** [done] and [pending] are sets: any iteration order may occur. *)
Definition asyncio_wait (sched : task → option (nat * completion))
    (cancel_at : option nat) (futures : iterable) (w : wait_result) (finish : nat)
    : Prop :=
  match asyncio_wait_run sched cancel_at futures with
  | (WaitReturns done pending, at_) =>
      finish = at_ ∧ ∃ d p, w = WaitReturns d p ∧ d ≡ₚ done ∧ p ≡ₚ pending
  | (WaitRaises e, at_) => finish = at_ ∧ w = WaitRaises e
  end.

(* ===================================================================== *)
(** ** Sequences of equal values *)
(* ===================================================================== *)

(** [s.count(x)], for values whose [==] is equality of values (numbers,
    strings). *)
Definition list_count {A} `{EqDecision A} (x : A) (s : list A) : nat :=
  length (filter (λ y, y = x) s).

(** [same_values(s)] is [s.count(s[0]) == len(s)]; [None] stands for the
    [IndexError] that [s[0]] raises on an empty sequence. *)
Definition same_values {A} `{EqDecision A} (s : list A) : option bool :=
  match s with
  | [] => None
  | x :: _ => Some (bool_decide (list_count x s = length s))
  end.

(* ===================================================================== *)
(** ** The size of a value *)
(* ===================================================================== *)

(** The number of nodes of a value, to reason by induction on values. *)
Fixpoint json_size (v : json) : nat :=
  match v with
  | JList l => S (foldr (λ x, plus (json_size x)) 0%nat l)
  | JDict d => S (map_fold (λ _ x, plus (json_size x)) 0%nat d)
  | _ => 1%nat
  end.

(** The value [py_.merge] stores at a key that holds [dv] in the object and
    [ov] in the source. *)
Definition deep_merge (dv ov : json) : json := merge_item _merge_with (Some dv) ov.

(* ===================================================================== *)
(** * Properties *)
(* ===================================================================== *)

(** ** The merge, key by key and index by index *)

Section merge_facts.
Variable rec : json → json → json.

Lemma merge_item_leaf ov sv :
  is_leaf sv = true ∨ from_option is_leaf true ov = true →
  merge_item rec ov sv = sv.
Proof.
  intros [Hs | Ho].
  - by destruct ov as [[]|], sv.
  - by destruct ov as [[]|], sv.
Qed.

Lemma merge_item_None sv : merge_item rec None sv = sv.
Proof. done. Qed.

(** One pass over the items of a mapping, stored under the keys [f k]. *)
Lemma map_fold_set_merged {K} `{Countable K} {L} `{Countable L}
    (f : L → K) `{!Inj (=) (=) f} (obj : gmap K json) (source : gmap L json) :
  ∀ key : L,
    map_fold (λ k, set_merged rec (f k)) obj source !! f key =
    match source !! key with
    | Some sv => Some (merge_item rec (obj !! f key) sv)
    | None => obj !! f key
    end.
Proof.
  apply (map_fold_weak_ind
    (λ r m, ∀ key : L, r !! f key =
       match m !! key with
       | Some sv => Some (merge_item rec (obj !! f key) sv)
       | None => obj !! f key
       end)).
  - intros key. by rewrite lookup_empty.
  - intros i x m r Hi IH key. unfold set_merged.
    destruct (decide (i = key)) as [->|Hne].
    + rewrite !lookup_insert_eq. by rewrite IH, Hi.
    + rewrite lookup_insert_ne by (intros ?%(inj f); congruence).
      rewrite (lookup_insert_ne m) by done. apply IH.
Qed.

(** Keys outside the image of [f] are left alone. *)
Lemma map_fold_set_merged_other {K} `{Countable K} {L} `{Countable L}
    (f : L → K) (obj : gmap K json) (source : gmap L json) (key : K) :
  (∀ k, f k ≠ key) →
  map_fold (λ k, set_merged rec (f k)) obj source !! key = obj !! key.
Proof.
  intros Hout.
  apply (map_fold_weak_ind (λ r (m : gmap L json), r !! key = obj !! key)); [done|].
  intros i x m r _ IH. unfold set_merged. by rewrite lookup_insert_ne.
Qed.

Lemma merge_map_lookup (obj source : gmap string json) key :
  merge_map rec obj source !! key =
  match source !! key with
  | Some sv => Some (merge_item rec (obj !! key) sv)
  | None => obj !! key
  end.
Proof. apply (map_fold_set_merged id). Qed.

(** [base_set] on a list whose length the index does not exceed. *)
Lemma base_set_list_le (obj : list json) i v :
  (i ≤ length obj)%nat →
  base_set_list obj i v =
  if decide (i < length obj)%nat then <[i := v]> obj else obj ++ [v].
Proof.
  intros Hi. unfold base_set_list. case_decide; [done|].
  assert (i = length obj) as -> by lia.
  by rewrite take_app_length.
Qed.

(** The enumeration loop, started at index [i] on a list at least that
    long. *)
Lemma merge_seq_from (source : list json) :
  ∀ (i : nat) (acc : list json), (i ≤ length acc)%nat →
    let r := snd (fold_left
                    (λ '(i, acc) src_value,
                       (S i, base_set_list acc i (merge_item rec (acc !! i) src_value)))
                    source (i, acc)) in
    length r = Nat.max (length acc) (i + length source) ∧
    ∀ j, r !! j =
         if decide (j < i)%nat then acc !! j
         else match source !! (j - i)%nat with
              | Some sv => Some (merge_item rec (acc !! j) sv)
              | None => acc !! j
              end.
Proof.
  induction source as [|sv source IH]; intros i acc Hi; simpl.
  - split; [lia|]. intros j. by case_decide.
  - set (acc' := base_set_list acc i (merge_item rec (acc !! i) sv)).
    assert (acc' = if decide (i < length acc)%nat
                   then <[i := merge_item rec (acc !! i) sv]> acc
                   else acc ++ [merge_item rec (acc !! i) sv]) as Hacc'
      by (by apply base_set_list_le).
    assert (length acc' = Nat.max (length acc) (S i)) as Hlen.
    { rewrite Hacc'. case_decide.
      - rewrite length_insert. lia.
      - rewrite length_app. simpl. lia. }
    destruct (IH (S i) acc' ltac:(lia)) as [IHlen IHlk].
    split; [rewrite IHlen, Hlen; lia|].
    intros j. rewrite IHlk.
    destruct (decide (j < i)%nat) as [Hji|Hji].
    + rewrite decide_True by lia. rewrite Hacc'. case_decide.
      * rewrite list_lookup_insert_ne by lia. done.
      * rewrite lookup_app_l by lia. done.
    + destruct (decide (j = i)) as [->|Hne].
      * rewrite decide_True by lia. rewrite Nat.sub_diag. simpl.
        rewrite Hacc'. case_decide.
        -- by rewrite list_lookup_insert_eq.
        -- rewrite lookup_app_r by lia.
           replace (i - length acc)%nat with 0%nat by lia. done.
      * rewrite decide_False by lia.
        replace (j - i)%nat with (S (j - S i)) by lia. simpl.
        assert (acc' !! j = acc !! j) as ->; [|done].
        rewrite Hacc'. case_decide.
        -- by rewrite list_lookup_insert_ne.
        -- rewrite (lookup_ge_None_2 acc j) by lia.
           apply lookup_ge_None_2. rewrite length_app. simpl. lia.
Qed.


Lemma merge_seq_lookup (obj source : list json) (i : nat) :
  merge_seq rec obj source !! i =
  match source !! i with
  | Some sv => Some (merge_item rec (obj !! i) sv)
  | None => obj !! i
  end.
Proof.
  destruct (merge_seq_from source 0 obj ltac:(lia)) as [_ Hlk].
  unfold merge_seq. rewrite Hlk. rewrite decide_False by lia.
  by rewrite Nat.sub_0_r.
Qed.
End merge_facts.

Lemma _merge_with_lists (d o : list json) :
  _merge_with (JList d) (JList o) = JList (merge_seq _merge_with d o).
Proof. done. Qed.

Lemma _merge_with_dicts (d o : gmap string json) :
  _merge_with (JDict d) (JDict o) = JDict (merge_map _merge_with d o).
Proof. done. Qed.

(** The configuration object after the merge of a mapping. *)
Lemma py_merge_lookup (conf : gmap pykey json) (override : gmap string json) key :
  py_merge conf (JDict override) !! KStr key =
  match override !! key with
  | Some ov => Some (merge_item _merge_with (conf !! KStr key) ov)
  | None => conf !! KStr key
  end.
Proof. apply (map_fold_set_merged _ KStr). Qed.

Lemma py_merge_lookup_int (conf : gmap pykey json) (override : gmap string json) i :
  py_merge conf (JDict override) !! KInt i = conf !! KInt i.
Proof. by apply map_fold_set_merged_other. Qed.

(** ** What [load_config] returns *)

(** Unfolds the sequencing of fallible steps, and nothing else. *)
Ltac result_simpl :=
  unfold mbind, mret, result_bind, result_ret in *; cbv beta iota in *.

(** The steps of a call of [load_config] that returns. *)
Lemma load_config_Ok env fs now load_state conf :
  load_config env fs now load_state = Ok conf →
  ∃ path override,
    _conf_path env = Ok path ∧
    _read_dict_from_file fs (JStr path) = Ok override ∧
    if load_state then
      ∃ state_f_path state,
        py_merge default_conf override !! KStr "state_f_path" = Some state_f_path ∧
        _load_state fs now state_f_path = Ok state ∧
        conf = <[KStr "state" := state]> (py_merge default_conf override)
    else conf = py_merge default_conf override.
Proof.
  unfold load_config. intros Hload.
  destruct (_conf_path env) as [path|] eqn:Hpath; result_simpl; [|done].
  destruct (_read_dict_from_file fs (JStr path)) as [override|] eqn:Hov;
    result_simpl; [|done].
  exists path, override. split_and!; [done..|].
  destruct load_state; [|by inversion Hload].
  unfold conf_getitem in Hload.
  destruct (py_merge default_conf override !! KStr "state_f_path") as [p|]; [|done].
  destruct (_load_state fs now p) as [state|] eqn:Hst; [|done].
  inversion Hload. by exists p, state.
Qed.

(** Reading a file by its name never raises. *)
Lemma _read_dict_from_file_str fs p :
  ∃ v, _read_dict_from_file fs (JStr p) = Ok v.
Proof.
  unfold _read_dict_from_file.
  destruct (readable_file fs p) as [c|]; [|by eexists].
  destruct (json_load c); by eexists.
Qed.

(** Without the state, [load_config] returns whenever [HOME] is set. *)
Lemma load_config_returns env fs now home :
  env !! "HOME" = Some home →
  ∃ conf, load_config env fs now false = Ok conf.
Proof.
  intros Hhome. unfold load_config, _conf_path, environ_getitem.
  rewrite Hhome. result_simpl.
  destruct (_read_dict_from_file_str fs
              (default (home +:+ "/.config") (env !! "XDG_CONFIG_DIR")
               +:+ "/bctl/config.json")) as [v ->].
  by eexists.
Qed.

(** [load_config] once the path and the override are known. *)
Lemma load_config_eq env fs now load_state path override :
  _conf_path env = Ok path →
  _read_dict_from_file fs (JStr path) = Ok override →
  load_config env fs now load_state =
  if load_state then
    state_f_path ← conf_getitem (py_merge default_conf override) "state_f_path";
    state ← _load_state fs now state_f_path;
    Ok (<[KStr "state" := state]> (py_merge default_conf override))
  else Ok (py_merge default_conf override).
Proof.
  intros Hpath Hov. unfold load_config.
  rewrite Hpath. result_simpl. by rewrite Hov.
Qed.

(** ** C2: sequences merge by index *)



(** ** C7: every default key survives; precedence of the override *)

Lemma default_conf_int_key i : default_conf !! KInt i = None.
Proof.
  unfold default_conf. apply not_elem_of_list_to_map_1.
  rewrite <-list_fmap_compose. intros (kv & Heq & _)%list_elem_of_fmap.
  by destruct kv.
Qed.

(** Every key of an object is still there after [py_.merge]. *)
Lemma py_merge_keeps_keys (conf : gmap pykey json) (override : gmap string json) k :
  is_Some (conf !! k) → is_Some (py_merge conf (JDict override) !! k).
Proof.
  intros Hk. destruct k as [key|i].
  - rewrite py_merge_lookup. by destruct (override !! key).
  - by rewrite py_merge_lookup_int.
Qed.

(** C7, as the code has it. For every override mapping: [load_config]
    returns when [HOME] is set and the state is not asked for; the
    configuration it returns has a value for every key of the defaults; and
    for every key, except [state] when the state is loaded, a key present
    on both sides with a leaf on either side holds the override's value, and
    a key present only in the defaults holds the default. When the state is
    loaded, [state] holds what [_load_state] returned. *)
Theorem load_config_merge_precedence :
  ∀ env fs now load_state path (override : gmap string json) conf,
    _conf_path env = Ok path →
    _read_dict_from_file fs (JStr path) = Ok (JDict override) →
    load_config env fs now load_state = Ok conf →
    (∀ k, is_Some (default_conf !! k) → is_Some (conf !! k)) ∧
    (∀ key dv ov,
       (load_state = true → key ≠ "state") →
       default_conf !! KStr key = Some dv →
       override !! key = Some ov →
       is_leaf dv = true ∨ is_leaf ov = true →
       conf !! KStr key = Some ov) ∧
    (∀ key dv,
       (load_state = true → key ≠ "state") →
       default_conf !! KStr key = Some dv →
       override !! key = None →
       conf !! KStr key = Some dv) ∧
    (load_state = true →
     ∃ state_f_path state,
       _load_state fs now state_f_path = Ok state ∧
       conf !! KStr "state" = Some state).
Proof.
  intros env fs now load_state path override conf Hpath Hov Hload.
  apply load_config_Ok in Hload as (path' & override' & Hpath' & Hov' & Hconf).
  rewrite Hpath in Hpath'. injection Hpath' as <-.
  rewrite Hov in Hov'. injection Hov' as <-.
  assert (∀ key, (load_state = true → key ≠ "state") →
                 conf !! KStr key = py_merge default_conf (JDict override) !! KStr key)
    as Hsame.
  { intros key Hkey. destruct load_state; [|by subst conf].
    destruct Hconf as (p & st & _ & _ & ->).
    rewrite lookup_insert_ne; [done|]. intros [= <-]. by apply Hkey. }
  split_and!.
  - intros k Hk. destruct load_state.
    + destruct Hconf as (p & st & _ & _ & ->).
      destruct (decide (KStr "state" = k)) as [<-|Hne].
      * rewrite lookup_insert_eq. by eexists.
      * rewrite lookup_insert_ne by done. by apply py_merge_keeps_keys.
    + subst conf. by apply py_merge_keeps_keys.
  - intros key dv ov Hkey Hdv Hovk Hleaf.
    rewrite Hsame, py_merge_lookup, Hovk, Hdv by done. f_equal.
    apply merge_item_leaf. simpl. tauto.
  - intros key dv Hkey Hdv Hovk.
    by rewrite Hsame, py_merge_lookup, Hovk by done.
  - intros ->. destruct Hconf as (p & st & _ & Hst & ->).
    exists p, st. split; [done|]. by rewrite lookup_insert_eq.
Qed.

(** C7 as the specification words it fails at the key [state] when the
    state is loaded: with no override file and no state file, [state] is
    present only in the defaults, where it is [None], and the configuration
    holds the sentinel record. *)
Lemma load_config_state_key_counterexample :
  ¬ (∀ env fs now load_state path (override : gmap string json) conf,
       _conf_path env = Ok path →
       _read_dict_from_file fs (JStr path) = Ok (JDict override) →
       load_config env fs now load_state = Ok conf →
       (∀ k, is_Some (default_conf !! k) → is_Some (conf !! k)) ∧
       (∀ key dv ov,
          default_conf !! KStr key = Some dv → override !! key = Some ov →
          is_leaf dv = true → is_leaf ov = true →
          conf !! KStr key = Some ov) ∧
       (∀ key dv,
          default_conf !! KStr key = Some dv → is_leaf dv = true →
          override !! key = None →
          conf !! KStr key = Some dv)).
Proof.
  intros Hclaim.
  assert (_conf_path {[ "HOME" := "/home/u" ]}
          = Ok "/home/u/.config/bctl/config.json") as Hpath by (by vm_compute).
  assert (_read_dict_from_file ∅ (JStr "/home/u/.config/bctl/config.json")
          = Ok (JDict ∅)) as Hov by (by vm_compute).
  destruct (Hclaim {[ "HOME" := "/home/u" ]} ∅ 1700000000 true
              "/home/u/.config/bctl/config.json" ∅
              (<[KStr "state" := EMPTY_STATE]> (py_merge default_conf (JDict ∅)))
              Hpath Hov)
    as (_ & _ & Honly).
  { rewrite (load_config_eq _ _ _ _ _ _ Hpath Hov).
    assert (conf_getitem (py_merge default_conf (JDict ∅)) "state_f_path"
            = Ok (JStr "/tmp/.bctld.state")) as -> by (by vm_compute).
    assert (_load_state ∅ 1700000000 (JStr "/tmp/.bctld.state") = Ok EMPTY_STATE)
      as Hst by (by vm_compute).
    result_simpl. by rewrite Hst. }
  specialize (Honly "state" JNull).
  rewrite lookup_insert_eq in Honly.
  discriminate Honly; by vm_compute.
Qed.

Lemma load_config_merge_precedence_witness :
  let env : gmap string string := {[ "HOME" := "/home/u" ]} in
  let path := "/home/u/.config/bctl/config.json" in
  let override : gmap string json :=
    {[ "log_lvl" := JStr "DEBUG"; "notify" := JDict {[ "enabled" := JBool false ]} ]} in
  let fs : gmap string node := {[ path := Regular true false (JsonText (JDict override)) ]} in
  let conf := py_merge default_conf (JDict override) in
  _conf_path env = Ok path ∧
  _read_dict_from_file fs (JStr path) = Ok (JDict override) ∧
  load_config env fs 1700000000 false = Ok conf ∧
  (∀ k, is_Some (default_conf !! k) → is_Some (conf !! k)) ∧
  conf !! KStr "log_lvl" = Some (JStr "DEBUG") ∧
  conf !! KStr "brightness_step" = Some (JInt 5).
Proof.
  intros env path override fs conf.
  assert (_conf_path env = Ok path) as Hpath by (by vm_compute).
  assert (_read_dict_from_file fs (JStr path) = Ok (JDict override)) as Hov
    by (by vm_compute).
  assert (load_config env fs 1700000000 false = Ok conf) as Hload
    by (by rewrite (load_config_eq _ _ _ _ _ _ Hpath Hov)).
  destruct (load_config_merge_precedence env fs 1700000000 false path override conf
              Hpath Hov Hload) as (Hkeys & Hboth & Honly & _).
  split_and!; [done..| |].
  - apply (Hboth "log_lvl" (JStr "INFO")); [done|by vm_compute|by vm_compute|by left].
  - apply (Honly "brightness_step"); [done|by vm_compute|by vm_compute].
Defined.


(** ** C4: the configuration path and the environment *)

Lemma _conf_path_home env home :
  env !! "HOME" = Some home →
  _conf_path env =
  Ok (default (home +:+ "/.config") (env !! "XDG_CONFIG_DIR") +:+ "/bctl/config.json").
Proof. intros Hhome. unfold _conf_path, environ_getitem. by rewrite Hhome. Qed.

(** Without [HOME] the path is never computed, whatever else is set. *)
Lemma _conf_path_no_home env :
  env !! "HOME" = None → _conf_path env = Raise (KeyError "HOME").
Proof. intros Hhome. unfold _conf_path, environ_getitem. by rewrite Hhome. Qed.

(** C4. The specification has the path computed, with [XDG_CONFIG_DIR]
    set, even when [HOME] is absent. The code does otherwise: the fallback
    [os.environ["HOME"]] is an argument of [os.environ.get], evaluated before
    the lookup of [XDG_CONFIG_DIR], so an environment that sets
    [XDG_CONFIG_DIR] and has no [HOME] gets a [KeyError]. *)
Theorem _conf_path_xdg_without_home :
  _conf_path {[ "XDG_CONFIG_DIR" := "/etc/xdg" ]} = Raise (KeyError "HOME").
Proof. by vm_compute. Qed.

(** ** C3: loading the persisted state *)

(** A readable state file that holds a mapping with an integer timestamp:
    the record is returned as it is when it is at most 60 seconds old and
    of the current version, and the sentinel otherwise. *)
Lemma _load_state_int_timestamp fs now p rw (d : gmap string json) t :
  fs !! p = Some (Regular true rw (JsonText (JDict d))) →
  default (JInt 0) (d !! "timestamp") = JInt t →
  _load_state fs now (JStr p) =
  Ok (if (now - t <=? TIME_DIFF_DELTA_THRESHOLD_S)
         && py_eq_int (default (JInt (-1)) (d !! "ver")) STATE_VER
      then JDict d else EMPTY_STATE).
Proof.
  intros Hfile Ht. unfold _load_state, _read_dict_from_file, readable_file.
  rewrite Hfile. unfold json_load, py_get. result_simpl.
  rewrite Ht. unfold py_int_sub, py_le_int. result_simpl.
  by destruct (_ && _).
Qed.


(** C3. The specification has [_load_state] return the sentinel, and
    never raise, in every case in which it does not return the record on
    disk. The code does otherwise on a readable file whose text parses but
    is no mapping, and on a mapping whose timestamp is no number:
    [_read_dict_from_file] returns whatever [json.load] decoded, and
    [s.get] on a list is an [AttributeError], [now - "..."] a
    [TypeError]. *)
Theorem _load_state_raises_on_non_mapping :
  _load_state {[ "/tmp/.bctld.state" := Regular true true (JsonText (JList [])) ]}
              1700000000 (JStr "/tmp/.bctld.state")
    = Raise AttributeError ∧
  _load_state {[ "/tmp/.bctld.state" :=
                   Regular true true
                     (JsonText (JDict {[ "timestamp" := JStr "yesterday";
                                         "ver" := JInt 1 ]})) ]}
              1700000000 (JStr "/tmp/.bctld.state")
    = Raise TypeError.
Proof. split; by vm_compute. Qed.


(** ** C9 and C10: writing the state *)

(** The lookups of the record [write_state] builds. *)
Lemma state_record_lookup (now : Z) (lsb : json) :
  let data : gmap string json :=
    {[ "timestamp" := JInt now; "ver" := JInt STATE_VER; "last_set_brightness" := lsb ]} in
  data !! "timestamp" = Some (JInt now) ∧
  data !! "ver" = Some (JInt STATE_VER) ∧
  data !! "last_set_brightness" = Some lsb.
Proof.
  intros data. subst data. split_and!.
  - by rewrite lookup_insert_eq.
  - rewrite lookup_insert_ne by done. by rewrite lookup_insert_eq.
  - rewrite !lookup_insert_ne by done. by rewrite lookup_singleton_eq.
Qed.

(** With a mapping under [state], [write_state] is the write of the
    record. *)
Lemma write_state_with_state conf now fs (state : gmap string json) :
  conf !! KStr "state" = Some (JDict state) →
  write_state conf now fs =
  file_write fs (default JNull (conf !! KStr "state_f_path"))
    (json_dumps (JDict {[ "timestamp" := JInt now;
                          "ver" := JInt STATE_VER;
                          "last_set_brightness" :=
                            default JNull (state !! "last_set_brightness") ]})).
Proof. intros Hstate. unfold write_state. by rewrite Hstate. Qed.

(** A write that succeeds went to a path given as a string, and leaves
    there a regular file with the payload. *)
Lemma file_write_Ok fs path payload fs' :
  file_write fs path payload = (Ok (), fs') →
  ∃ p r, path = JStr p ∧ fs' = <[p := Regular r true payload]> fs ∧
         (r = true ∨ ∃ c, fs !! p = Some (Regular r true c)).
Proof.
  unfold file_write. intros Hw.
  destruct path as [| | | |p| |]; try done.
  destruct (fs !! p) as [[r [] c| |r c]|] eqn:Hp; try done.
  - injection Hw as <-. exists p, r. eauto.
  - injection Hw as <-. exists p, true. eauto.
Qed.

(** C9. State round-trip. For a configuration whose [state] is a mapping:
    if [write_state] at time [now1] succeeds, it wrote to the path under
    [state_f_path]; and if that file is readable, [_load_state] at a time
    [now2] with [now2 - now1 <= 60] returns a record whose
    [last_set_brightness] is the one of the configuration's state (and
    whose timestamp and version are [now1] and [STATE_VER]). The write does
    succeed, leaving a readable file, when the path is free or names a
    readable and writable regular file. *)
Theorem write_state_load_state_round_trip :
  ∀ conf (state : gmap string json) now1 now2 fs,
    conf !! KStr "state" = Some (JDict state) →
    now2 - now1 ≤ TIME_DIFF_DELTA_THRESHOLD_S →
    (∀ fs', write_state conf now1 fs = (Ok (), fs') →
       ∃ p, conf !! KStr "state_f_path" = Some (JStr p) ∧
            (is_Some (readable_file fs' p) →
             ∃ rec, _load_state fs' now2 (JStr p) = Ok (JDict rec) ∧
                    py_get (JDict rec) "last_set_brightness" JNull
                      = py_get (JDict state) "last_set_brightness" JNull ∧
                    rec !! "timestamp" = Some (JInt now1) ∧
                    rec !! "ver" = Some (JInt STATE_VER))) ∧
    (∀ p, conf !! KStr "state_f_path" = Some (JStr p) →
          (fs !! p = None ∨ ∃ c, fs !! p = Some (Regular true true c)) →
          ∃ fs', write_state conf now1 fs = (Ok (), fs') ∧
                 is_Some (readable_file fs' p)).
Proof.
  intros conf state now1 now2 fs Hstate Hage.
  rewrite (write_state_with_state _ _ _ _ Hstate).
  set (lsb := default JNull (state !! "last_set_brightness")).
  destruct (state_record_lookup now1 lsb) as (Hts & Hver & Hlsb).
  split.
  - intros fs' Hw.
    apply file_write_Ok in Hw as (p & r & Hpath & -> & _).
    exists p. split.
    { destruct (conf !! KStr "state_f_path") as [v|]; simpl in Hpath; by subst. }
    unfold readable_file at 1. rewrite lookup_insert_eq.
    intros Hread. destruct r; [|by destruct Hread].
    eexists. split_and!.
    + erewrite _load_state_int_timestamp;
        [| apply lookup_insert_eq | by rewrite Hts].
      rewrite Hver. simpl.
      apply Z.leb_le in Hage. rewrite Hage. done.
    + unfold py_get. by rewrite Hlsb.
    + done.
    + done.
  - intros p Hp Hfree. rewrite Hp. simpl.
    destruct Hfree as [Hnone | [c Hc]].
    + rewrite Hnone. eexists. split; [done|].
      unfold readable_file. rewrite lookup_insert_eq. by eexists.
    + rewrite Hc. eexists. split; [done|].
      unfold readable_file. rewrite lookup_insert_eq. by eexists.
Qed.

Lemma write_state_load_state_round_trip_witness :
  let conf : gmap pykey json :=
    {[ KStr "state_f_path" := JStr "/tmp/.bctld.state";
       KStr "state" := JDict {[ "last_set_brightness" := JInt 70 ]} ]} in
  conf !! KStr "state" = Some (JDict {[ "last_set_brightness" := JInt 70 ]}) ∧
  1700000030 - 1700000000 ≤ TIME_DIFF_DELTA_THRESHOLD_S ∧
  ∃ fs' rec,
    write_state conf 1700000000 ∅ = (Ok (), fs') ∧
    _load_state fs' 1700000030 (JStr "/tmp/.bctld.state") = Ok (JDict rec) ∧
    py_get (JDict rec) "last_set_brightness" JNull = Ok (JInt 70).
Proof.
  intros conf.
  assert (conf !! KStr "state" = Some (JDict {[ "last_set_brightness" := JInt 70 ]}))
    as Hstate by (by vm_compute).
  assert (1700000030 - 1700000000 ≤ TIME_DIFF_DELTA_THRESHOLD_S) as Hage
    by (by vm_compute).
  assert (conf !! KStr "state_f_path" = Some (JStr "/tmp/.bctld.state")) as Hpath
    by (by vm_compute).
  split; [exact Hstate|]. split; [exact Hage|].
  destruct (write_state_load_state_round_trip conf _ 1700000000 1700000030 ∅
              Hstate Hage) as [Hback Hwrite].
  destruct (Hwrite "/tmp/.bctld.state" Hpath (or_introl eq_refl))
    as (fs' & Hw & Hreadable).
  destruct (Hback fs' Hw) as (p & Hp & Hload).
  rewrite Hpath in Hp. injection Hp as <-.
  destruct (Hload Hreadable) as (rec & Hrec & Hlsb & _).
  exists fs', rec. split_and!; [done..|].
  rewrite Hlsb. by vm_compute.
Defined.

(** C10. Implicit precondition of [write_state]. When the configuration
    has nothing under [state] ([None], or no such key), [write_state]
    raises an [AttributeError] and writes nothing; this is the case of a
    configuration returned by [load_config] without the state when the
    override does not set [state]; and whenever [write_state] does not end
    in an [AttributeError], the configuration holds a mapping under
    [state]. *)
Theorem write_state_requires_state :
  (∀ conf now fs,
     conf !! KStr "state" = None ∨ conf !! KStr "state" = Some JNull →
     write_state conf now fs = (Raise AttributeError, fs)) ∧
  (∀ env fs0 now0 path (override : gmap string json) conf,
     _conf_path env = Ok path →
     _read_dict_from_file fs0 (JStr path) = Ok (JDict override) →
     override !! "state" = None →
     load_config env fs0 now0 false = Ok conf →
     conf !! KStr "state" = Some JNull ∧
     ∀ now fs, write_state conf now fs = (Raise AttributeError, fs)) ∧
  (∀ conf now fs r fs',
     write_state conf now fs = (r, fs') →
     r ≠ Raise AttributeError →
     ∃ state, conf !! KStr "state" = Some (JDict state)).
Proof.
  assert (∀ conf now fs,
     conf !! KStr "state" = None ∨ conf !! KStr "state" = Some JNull →
     write_state conf now fs = (Raise AttributeError, fs)) as Hnone.
  { intros conf now fs [Hs | Hs]; unfold write_state; by rewrite Hs. }
  split_and!; [exact Hnone | |].
  - intros env fs0 now0 path override conf Hpath Hov Hstate Hload.
    rewrite (load_config_eq _ _ _ _ _ _ Hpath Hov) in Hload.
    injection Hload as <-.
    assert (py_merge default_conf (JDict override) !! KStr "state" = Some JNull) as Hs.
    { rewrite py_merge_lookup, Hstate. by vm_compute. }
    split; [done|]. intros now fs. apply Hnone. by right.
  - intros conf now fs r fs' Hw Hr. unfold write_state in Hw.
    destruct (conf !! KStr "state") as [[| | | | | |state]|] eqn:Hs;
      simpl in Hw; try (injection Hw as <- _; done).
    by exists state.
Qed.

Lemma write_state_requires_state_witness :
  default_conf !! KStr "state" = Some JNull ∧
  write_state default_conf 1700000000 ∅ = (Raise AttributeError, ∅).
Proof.
  assert (default_conf !! KStr "state" = Some JNull) as Hs by (by vm_compute).
  split; [exact Hs|].
  apply (proj1 write_state_requires_state default_conf 1700000000 ∅). by right.
Defined.


(** ** C8: the command runner and the exit status *)

(** C8, as the code has it. For a process that runs to completion: with a
    non-zero exit status, [run_cmd] raises the execution error exactly when
    [throw_on_err] is set; when it is not set, or the status is zero, and
    both captured streams are valid UTF-8, [run_cmd] returns the triple of
    the two decoded texts and the status; when one of the streams is not
    valid UTF-8, it raises the decoding error instead. An error entry is
    logged exactly when the status is non-zero and a log sink was given. *)
Theorem run_cmd_exit_status :
  ∀ (str_split : string → list string) (subprocess_exec : list string → proc_result)
    cmd throw_on_err logger stdout stderr returncode,
    let argv := match cmd with CmdStr s => str_split s | CmdArgs args => args end in
    let r := run_cmd str_split subprocess_exec cmd throw_on_err logger in
    subprocess_exec argv = Exited stdout stderr returncode →
    (returncode ≠ 0 →
       (r.1 = Raise (RuntimeError argv returncode) ↔ throw_on_err = true)) ∧
    (returncode = 0 ∨ throw_on_err = false →
       (∀ out err, bytes_decode stdout = Ok out → bytes_decode stderr = Ok err →
                   r.1 = Ok (out, err, returncode)) ∧
       (is_ok (bytes_decode stdout) && is_ok (bytes_decode stderr) = false →
        r.1 = Raise UnicodeDecodeError)) ∧
    r.2 = (if bool_decide (returncode ≠ 0) && logger
           then [LogError argv returncode] else []).
Proof.
  intros str_split subprocess_exec cmd throw_on_err logger stdout stderr returncode
         argv r Hexec.
  subst r. unfold run_cmd. fold argv. rewrite Hexec.
  split_and!.
  - intros Hrc. rewrite bool_decide_true by done. simpl.
    destruct throw_on_err; simpl; [done|].
    split; [|done].
    unfold bytes_decode.
    destruct (utf8_valid (Byte.to_N <$> stdout)); [|done].
    destruct (utf8_valid (Byte.to_N <$> stderr)); done.
  - intros Hcase.
    assert (bool_decide (returncode ≠ 0) && throw_on_err = false) as ->.
    { destruct Hcase as [-> | ->]; [done|]. by rewrite andb_false_r. }
    split.
    + intros out err Hout Herr. simpl. by rewrite Hout, Herr.
    + simpl. unfold bytes_decode.
      destruct (utf8_valid (Byte.to_N <$> stdout)); [|done].
      destruct (utf8_valid (Byte.to_N <$> stderr)); done.
  - by destruct (bool_decide (returncode ≠ 0) && throw_on_err).
Qed.

(** C8 as the specification words it (a zero exit status always returns
    the triple) fails on a process that exits with status zero after
    writing a byte that is not UTF-8: the call raises. *)
Lemma run_cmd_undecodable_output_counterexample :
  ¬ (∀ (str_split : string → list string)
       (subprocess_exec : list string → proc_result)
       cmd throw_on_err logger stdout stderr,
       subprocess_exec (match cmd with CmdStr s => str_split s | CmdArgs args => args end)
         = Exited stdout stderr 0 →
       ∃ out err,
         (run_cmd str_split subprocess_exec cmd throw_on_err logger).1
           = Ok (out, err, 0)).
Proof.
  intros Hclaim.
  destruct (Hclaim (λ s, [s]) (λ _, Exited [xff] [] 0)
              (CmdArgs ["cat"; "/bin/true"]) false false [xff] [] eq_refl)
    as (out & err & Hr).
  vm_compute in Hr. discriminate Hr.
Qed.

Lemma run_cmd_exit_status_witness :
  let subprocess_exec : list string → proc_result :=
    λ _, Exited [x6f; x6b] [x21] 3 in
  subprocess_exec ["ddcutil"; "getvcp"; "10"] = Exited [x6f; x6b] [x21] 3 ∧
  (run_cmd (λ s, [s]) subprocess_exec (CmdArgs ["ddcutil"; "getvcp"; "10"]) false true).1
    = Ok ("ok", "!", 3) ∧
  (run_cmd (λ s, [s]) subprocess_exec (CmdArgs ["ddcutil"; "getvcp"; "10"]) true true).1
    = Raise (RuntimeError ["ddcutil"; "getvcp"; "10"] 3).
Proof.
  intros subprocess_exec. split; [reflexivity|]. split.
  - apply (run_cmd_exit_status (λ s, [s]) subprocess_exec
             (CmdArgs ["ddcutil"; "getvcp"; "10"]) false true [x6f; x6b] [x21] 3 eq_refl).
    + by right.
    + reflexivity.
    + reflexivity.
  - apply (run_cmd_exit_status (λ s, [s]) subprocess_exec
             (CmdArgs ["ddcutil"; "getvcp"; "10"]) true true [x6f; x6b] [x21] 3 eq_refl);
      done.
Defined.

(** ** The supervisor: what the wait returns *)

Lemma foldr_min_le (bound : nat) (l : list nat) :
  (foldr Nat.min bound l ≤ bound)%nat ∧
  ∀ x, x ∈ l → (foldr Nat.min bound l ≤ x)%nat.
Proof.
  induction l as [|y l [IHb IHl]]; simpl.
  - split; [lia|]. by intros x ?%elem_of_nil.
  - split; [lia|]. intros x [->|Hx]%elem_of_cons; [lia|].
    specialize (IHl x Hx). lia.
Qed.

Lemma foldr_min_cases (bound : nat) (l : list nat) :
  foldr Nat.min bound l = bound ∨ foldr Nat.min bound l ∈ l.
Proof.
  induction l as [|y l IH]; simpl; [by left|].
  destruct (Nat.min_spec y (foldr Nat.min bound l)) as [[_ ->] | [_ ->]].
  - right. by left.
  - destruct IH as [-> | IH]; [by left|]. right. by right.
Qed.

Lemma wake_time_le_timeout sched fs : (wake_time sched fs ≤ WAIT_TIMEOUT)%nat.
Proof. unfold wake_time. by destruct (foldr_min_le WAIT_TIMEOUT
  (omap (failure_time sched) fs ++ option_list (all_finished_time sched fs))). Qed.


Lemma all_finished_time_ge sched fs m t at_ c :
  all_finished_time sched fs = Some m →
  t ∈ fs → sched t = Some (at_, c) → (at_ ≤ m)%nat.
Proof.
  unfold all_finished_time. intros Hall Ht Hsched.
  destruct (mapM (λ t, fst <$> sched t) fs) as [times|] eqn:Htimes; [|done].
  injection Hall as <-.
  apply mapM_Some in Htimes.
  apply list_elem_of_lookup in Ht as [i Hi].
  destruct (Forall2_lookup_l _ _ _ _ _ Htimes Hi) as (at' & Hat' & Heq).
  rewrite Hsched in Heq. injection Heq as <-.
  apply max_list_elem_of_le. by eapply list_elem_of_lookup_2.
Qed.


(** The ways in which the wait ends. *)
Lemma asyncio_wait_inv sched cancel_at futures w finish :
  asyncio_wait sched cancel_at futures w finish →
  let fs := tasks_of futures in
  (fs = [] ∧ finish = 0%nat ∧
   w = WaitRaises (match futures with
                   | Collection _ => ValueError
                   | Iterator _ => AssertionError
                   end)) ∨
  (fs ≠ [] ∧ w = WaitRaises CancelledError ∧ cancel_at = Some finish ∧
   (finish < wake_time sched fs)%nat) ∨
  (fs ≠ [] ∧ finish = wake_time sched fs ∧
   (∀ c, cancel_at = Some c → (finish ≤ c)%nat) ∧
   ∃ d p, w = WaitReturns d p ∧
          d ≡ₚ filter (λ t, is_Some (status_at sched finish t)) (remove_dups fs) ∧
          p ≡ₚ filter (λ t, status_at sched finish t = None) (remove_dups fs)).
Proof.
  unfold asyncio_wait, asyncio_wait_run.
  destruct futures as [[|t ts]|[|t ts]]; simpl; try (intros [-> ->]; by left).
  all: set (tasks := t :: ts); intros Hw; right.
  all: destruct cancel_at as [c|];
         [destruct (c <? wake_time sched tasks)%nat eqn:Hc|].
  all: try (destruct Hw as [-> ->]; left; apply Nat.ltb_lt in Hc; done).
  all: destruct Hw as (-> & d & p & -> & Hd & Hp); right.
  all: split_and!; [done..| |by eauto].
  all: try (apply Nat.ltb_ge in Hc; by intros ? [= <-]).
  all: done.
Qed.

(** The loop over [done]. *)
Lemma reraise_first_Ok status done :
  reraise_first status done = Ok () ↔ Forall (λ t, status t = Some Returned) done.
Proof.
  induction done as [|t done IH]; simpl; [done|].
  rewrite Forall_cons, <-IH.
  destruct (status t) as [[]|]; simpl.
  - split; [done|by intros [_ ?]].
  - split; [done|by intros [? _]].
  - split; [done|by intros [? _]].
  - split; [done|by intros [? _]].
Qed.


Lemma wait_and_reraise_returns status futures done pending :
  wait_and_reraise status futures (WaitReturns done pending)
  = (reraise_first status done, pending).
Proof. done. Qed.

(** Membership in the two sets the wait returns. *)
Lemma wait_done_elem sched fs finish (d : list task) t :
  d ≡ₚ filter (λ t, is_Some (status_at sched finish t)) (remove_dups fs) →
  t ∈ d ↔ is_Some (status_at sched finish t) ∧ t ∈ fs.
Proof.
  intros ->. by rewrite list_elem_of_filter, elem_of_remove_dups.
Qed.

Lemma wait_pending_elem sched fs finish (p : list task) t :
  p ≡ₚ filter (λ t, status_at sched finish t = None) (remove_dups fs) →
  t ∈ p ↔ status_at sched finish t = None ∧ t ∈ fs.
Proof.
  intros ->. by rewrite list_elem_of_filter, elem_of_remove_dups.
Qed.

(** ** C1: fail-fast supervision *)





(** ** C5: when the supervisor returns and when it raises *)




(** ** C6: cancellation of the supervisor *)

(** C6. The specification has the supervisor, when it is cancelled while
    it waits, request the cancellation of all the tasks it was given and
    then propagate its own cancellation. The [CancelledError] is raised in
    every case, whatever the states of the tasks. The code calls [cancel()]
    on what a second iteration over [futures] yields: for a collection that
    is every task given, finished or not, in the order given; for an
    iterator, which [Iterable[Task]] admits, [asyncio.wait] has used it up,
    and [cancel()] is called on no task at all. *)
Theorem supervisor_cancelled :
  (∀ status futures,
     wait_and_reraise status futures (WaitRaises CancelledError)
     = (Raise CancelledError, iterate_again futures)) ∧
  (∀ sched futures c w finish,
     tasks_of futures ≠ [] →
     (c < wake_time sched (tasks_of futures))%nat →
     asyncio_wait sched (Some c) futures w finish →
     w = WaitRaises CancelledError ∧ finish = c ∧
     wait_and_reraise (status_at sched finish) futures w
     = (Raise CancelledError,
        match futures with
        | Collection fs => fs
        | Iterator _ => []
        end)) ∧
  (let sched : task → option (nat * completion) :=
     λ t, match t with
          | 0%nat => Some (3%nat, Returned)
          | 1%nat => Some (900%nat, Failed (TaskError 1))
          | _ => None
          end in
   asyncio_wait sched (Some 5%nat) (Iterator [0; 1; 2]%nat)
     (WaitRaises CancelledError) 5%nat ∧
   wait_and_reraise (status_at sched 5) (Iterator [0; 1; 2]%nat)
     (WaitRaises CancelledError) = (Raise CancelledError, []) ∧
   wait_and_reraise (status_at sched 5) (Collection [0; 1; 2]%nat)
     (WaitRaises CancelledError) = (Raise CancelledError, [0; 1; 2]%nat)).
Proof.
  split_and!.
  - intros status futures. done.
  - intros sched futures c w finish Hfs Hc Hwait.
    apply asyncio_wait_inv in Hwait
      as [(Hnil & _) | [(_ & -> & [= <-] & _) | (_ & -> & Hle & _)]].
    + done.
    + split_and!; [done..|]. by destruct futures.
    + specialize (Hle c eq_refl). lia.
  - done.
Qed.

Lemma supervisor_cancelled_witness :
  let sched : task → option (nat * completion) :=
    λ t, match t with
         | 0%nat => Some (3%nat, Returned)
         | 1%nat => Some (900%nat, Failed (TaskError 1))
         | _ => None
         end in
  let futures := Iterator [0; 1; 2]%nat in
  tasks_of futures ≠ [] ∧
  (5 < wake_time sched (tasks_of futures))%nat ∧
  asyncio_wait sched (Some 5%nat) futures (WaitRaises CancelledError) 5%nat ∧
  wait_and_reraise (status_at sched 5) futures (WaitRaises CancelledError)
    = (Raise CancelledError, []).
Proof.
  intros sched futures.
  assert (tasks_of futures ≠ []) as Hfs by done.
  assert (5 < wake_time sched (tasks_of futures))%nat as Hc by (vm_compute; lia).
  assert (asyncio_wait sched (Some 5%nat) futures (WaitRaises CancelledError) 5%nat)
    as Hwait by done.
  split_and!; [done..|].
  apply (proj1 (proj2 supervisor_cancelled) sched futures 5%nat
           (WaitRaises CancelledError) 5%nat Hfs Hc Hwait).
Defined.

(* ===================================================================== *)
(** * Further properties of the code *)
(* ===================================================================== *)

(** ** [same_values] *)

Lemma list_count_le {A} `{EqDecision A} (x : A) (s : list A) :
  (list_count x s ≤ length s)%nat.
Proof. apply length_filter. Qed.

Lemma list_count_all {A} `{EqDecision A} (x : A) (s : list A) :
  list_count x s = length s ↔ Forall (λ y, y = x) s.
Proof.
  unfold list_count. induction s as [|y s IH]; simpl.
  - split; [by constructor|done].
  - rewrite filter_cons. rewrite Forall_cons. case_decide as Hy; simpl.
    + rewrite <-IH. split; [intros [= ?]; by split | by intros [_ ->]].
    + split; [|by intros [? _]].
      intros Hlen. pose proof (length_filter (λ y, y = x) s). lia.
Qed.

(** X1. [same_values] raises on the empty sequence and on no other;
    otherwise it tells whether all the elements are equal: it returns
    [True] exactly when any two elements of the sequence are equal, and
    [False] exactly when two of them differ. *)
Theorem same_values_all_equal :
  ∀ {A} `{EqDecision A} (s : list A),
    (same_values s = None ↔ s = []) ∧
    (same_values s = Some true ↔ s ≠ [] ∧ ∀ y z, y ∈ s → z ∈ s → y = z) ∧
    (same_values s = Some false ↔ ∃ y z, y ∈ s ∧ z ∈ s ∧ y ≠ z).
Proof.
  intros A ? s. destruct s as [|x s].
  - split_and!; [done| |].
    + split; [done|]. by intros [? _].
    + split; [done|]. by intros (y & _ & []%elem_of_nil & _).
  - unfold same_values.
    assert (list_count x (x :: s) = length (x :: s) ↔
            ∀ y z, y ∈ x :: s → z ∈ x :: s → y = z) as Hall.
    { rewrite list_count_all, Forall_forall. split.
      - intros Heq y z Hy Hz. by rewrite (Heq y Hy), (Heq z Hz).
      - intros Heq y Hy. apply Heq; [done|by left]. }
    split_and!; [done| |].
    + split.
      * intros [= Hb]. apply bool_decide_eq_true in Hb. split; [done|].
        by apply Hall.
      * intros [_ Heq]. f_equal. apply bool_decide_eq_true. by apply Hall.
    + split.
      * intros [= Hb]. apply bool_decide_eq_false in Hb.
        rewrite list_count_all in Hb. apply not_Forall_Exists in Hb; [|apply _].
        apply Exists_exists in Hb as (y & Hy & Hne).
        exists y, x. split_and!; [done|by left|done].
      * intros (y & z & Hy & Hz & Hne). f_equal. apply bool_decide_eq_false.
        intros Heq. apply Hne. by apply (proj1 Hall Heq).
Qed.

(** ** Merging a value onto itself *)

Lemma json_size_list_elem (l : list json) x :
  x ∈ l → (json_size x < json_size (JList l))%nat.
Proof.
  simpl. induction l as [|y l IH]; [by intros ?%elem_of_nil|].
  intros [->|Hx]%elem_of_cons; simpl; [lia|]. specialize (IH Hx). lia.
Qed.

Lemma json_size_dict_lookup (d : gmap string json) k v :
  d !! k = Some v → (json_size v < json_size (JDict d))%nat.
Proof.
  intros Hk. simpl.
  rewrite (map_fold_delete_L _ _ k v d); [lia| |done].
  intros. lia.
Qed.

(** Merging a value onto itself leaves it as it is. *)
Lemma _merge_with_same (v : json) : _merge_with v v = v.
Proof.
  remember (json_size v) as n eqn:Hn. revert v Hn.
  induction n as [n IH] using lt_wf_ind. intros v ->.
  assert (∀ x, (json_size x < json_size v)%nat →
               merge_item _merge_with (Some x) x = x) as Hitem.
  { intros x Hx. destruct x as [| | | | |l|d]; try done.
    - change (_merge_with (JList l) (JList l) = JList l). by apply (IH _ Hx).
    - change (_merge_with (JDict d) (JDict d) = JDict d). by apply (IH _ Hx). }
  destruct v as [| | | | |l|d]; try done.
  - rewrite _merge_with_lists. f_equal. apply list_eq. intros i.
    rewrite merge_seq_lookup. destruct (l !! i) as [x|] eqn:Hi; [|done].
    f_equal. apply Hitem, json_size_list_elem. by eapply list_elem_of_lookup_2.
  - rewrite _merge_with_dicts. f_equal. apply map_eq. intros k.
    rewrite merge_map_lookup. destruct (d !! k) as [x|] eqn:Hk; [|done].
    f_equal. by eapply Hitem, json_size_dict_lookup.
Qed.

(** X2. Merge idempotence. [py_.merge] of an override each of whose entries
    is already what the object holds under that key leaves the object
    unchanged, however deeply the values nest; in particular the merge of a
    mapping onto itself changes nothing. *)
Theorem py_merge_idempotent :
  ∀ (conf : gmap pykey json) (override : gmap string json),
    (∀ key v, override !! key = Some v → conf !! KStr key = Some v) →
    py_merge conf (JDict override) = conf.
Proof.
  intros conf override Hsub. apply map_eq. intros [key|i].
  - rewrite py_merge_lookup. destruct (override !! key) as [v|] eqn:Hk; [|done].
    rewrite (Hsub _ _ Hk). f_equal.
    pose proof (_merge_with_same v) as Hsame. by destruct v.
  - by rewrite py_merge_lookup_int.
Qed.

Lemma py_merge_idempotent_witness :
  let conf : gmap pykey json :=
    {[ KStr "notify" := JDict {[ "enabled" := JBool true; "timeout_ms" := JInt 4000 ]};
       KStr "flags" := JList [JStr "--skip-ddc-checks"];
       KStr "brightness_step" := JInt 5 ]} in
  let override : gmap string json :=
    {[ "notify" := JDict {[ "enabled" := JBool true; "timeout_ms" := JInt 4000 ]};
       "flags" := JList [JStr "--skip-ddc-checks"] ]} in
  (∀ key v, override !! key = Some v → conf !! KStr key = Some v) ∧
  py_merge conf (JDict override) = conf.
Proof.
  intros conf override.
  assert (∀ key v, override !! key = Some v → conf !! KStr key = Some v) as Hsub.
  { intros key v. subst conf override.
    destruct (decide (key = "notify")) as [->|Hn].
    { rewrite lookup_insert_eq. intros [= <-]. by vm_compute. }
    rewrite lookup_insert_ne by done.
    destruct (decide (key = "flags")) as [->|Hf].
    { rewrite lookup_singleton_eq. intros [= <-]. by vm_compute. }
    by rewrite lookup_singleton_ne. }
  split; [exact Hsub|].
  exact (py_merge_idempotent conf override Hsub).
Defined.

(** ** [load_config] and the override file *)

(** The enumeration of a list or a string only writes integer keys, and
    never removes a key. *)
Lemma merge_enumerated_lookup_str (obj : gmap pykey json) (items : list json) key :
  merge_enumerated obj items !! KStr key = obj !! KStr key.
Proof.
  unfold merge_enumerated. generalize 0%nat. revert obj.
  induction items as [|x items IH]; intros obj i; simpl; [done|].
  rewrite IH. unfold set_merged. by rewrite lookup_insert_ne.
Qed.

Lemma py_merge_keeps_str_keys (conf : gmap pykey json) (source : json) key :
  is_Some (conf !! KStr key) → is_Some (py_merge conf source !! KStr key).
Proof.
  intros Hk. destruct source as [| | | |s|l|d]; simpl; try done.
  - by rewrite merge_enumerated_lookup_str.
  - by rewrite merge_enumerated_lookup_str.
  - by apply py_merge_keeps_keys.
Qed.

Lemma default_conf_key (k : pykey) :
  is_Some (default_conf !! k) → ∃ key, k = KStr key.
Proof.
  destruct k as [key|i]; [by eexists|].
  rewrite default_conf_int_key. by intros [].
Qed.

(** X3. Whatever the override file holds (nothing, text that is no JSON, a
    mapping, or any other JSON value), [load_config] without the state
    returns exactly when [HOME] is set, and the configuration it returns,
    with or without the state, has a value for every key of the
    defaults. *)
Theorem load_config_any_override :
  ∀ env fs now,
    (is_ok (load_config env fs now false) = true ↔ is_Some (env !! "HOME")) ∧
    (∀ load_state conf,
       load_config env fs now load_state = Ok conf →
       ∀ k, is_Some (default_conf !! k) → is_Some (conf !! k)).
Proof.
  intros env fs now. split.
  - split.
    + intros Hok. destruct (env !! "HOME") as [home|] eqn:Hhome; [by eexists|].
      unfold load_config in Hok. by rewrite (_conf_path_no_home _ Hhome) in Hok.
    + intros [home Hhome].
      by destruct (load_config_returns env fs now home Hhome) as [conf ->].
  - intros load_state conf Hload k Hk.
    destruct (default_conf_key k Hk) as [key ->].
    apply load_config_Ok in Hload as (path & override & _ & _ & Hconf).
    destruct load_state.
    + destruct Hconf as (p & st & _ & _ & ->).
      destruct (decide (key = "state")) as [->|Hne].
      * rewrite lookup_insert_eq. by eexists.
      * rewrite lookup_insert_ne by congruence. by apply py_merge_keeps_str_keys.
    + subst conf. by apply py_merge_keeps_str_keys.
Qed.

(** X4. When the override file is absent, unreadable or no JSON, or holds a
    mapping each of whose entries is what the defaults hold under that key,
    the configuration returned without the state is exactly the
    defaults. *)
Theorem load_config_defaults :
  ∀ env fs now path,
    _conf_path env = Ok path →
    (readable_file fs path = None ∨ readable_file fs path = Some Garbage ∨
     ∃ override : gmap string json,
       readable_file fs path = Some (JsonText (JDict override)) ∧
       ∀ key v, override !! key = Some v → default_conf !! KStr key = Some v) →
    load_config env fs now false = Ok default_conf.
Proof.
  intros env fs now path Hpath Hfile.
  assert (∃ override : gmap string json,
            _read_dict_from_file fs (JStr path) = Ok (JDict override) ∧
            ∀ key v, override !! key = Some v → default_conf !! KStr key = Some v)
    as (override & Hov & Hsub).
  { unfold _read_dict_from_file.
    destruct Hfile as [-> | [-> | (override & -> & Hsub)]].
    - exists ∅. split; [done|]. intros key v. by rewrite lookup_empty.
    - exists ∅. split; [done|]. intros key v. by rewrite lookup_empty.
    - by exists override. }
  rewrite (load_config_eq _ _ _ _ _ _ Hpath Hov).
  f_equal. unfold py_merge.
  pose proof (map_fold_set_merged _merge_with KStr default_conf override) as Hlk.
  apply map_eq. intros [key|i].
  - rewrite Hlk. destruct (override !! key) as [v|] eqn:Hk; [|done].
    rewrite (Hsub _ _ Hk). f_equal.
    pose proof (_merge_with_same v) as Hsame. by destruct v.
  - by apply map_fold_set_merged_other.
Qed.

Lemma load_config_defaults_witness :
  let env : gmap string string := {[ "HOME" := "/home/u" ]} in
  let path := "/home/u/.config/bctl/config.json" in
  let fs : gmap string node := {[ path := Regular true true Garbage ]} in
  _conf_path env = Ok path ∧
  readable_file fs path = Some Garbage ∧
  load_config env fs 1700000000 false = Ok default_conf.
Proof.
  intros env path fs.
  assert (_conf_path env = Ok path) as Hpath by (by vm_compute).
  assert (readable_file fs path = Some Garbage) as Hfile by (by vm_compute).
  split; [exact Hpath|]. split; [exact Hfile|].
  apply (load_config_defaults env fs 1700000000 path Hpath).
  right. by left.
Defined.

(** X5. Nested mappings merge key by key. When a key holds a mapping [d] in
    the defaults (as [notify] does) and a mapping [o] in the override, the
    configuration holds under that key a mapping with the keys of both: a
    sub-key of both holds the deep merge of the two values (the override's
    value when either is a leaf), a sub-key of [o] alone the override's
    value, a sub-key of [d] alone the default. *)
Theorem load_config_merges_nested_mappings :
  ∀ env fs now load_state path (override : gmap string json) conf key
    (d o : gmap string json),
    _conf_path env = Ok path →
    _read_dict_from_file fs (JStr path) = Ok (JDict override) →
    load_config env fs now load_state = Ok conf →
    default_conf !! KStr key = Some (JDict d) →
    override !! key = Some (JDict o) →
    ∃ r : gmap string json,
      conf !! KStr key = Some (JDict r) ∧
      dom r = dom d ∪ dom o ∧
      (∀ sub, r !! sub = match d !! sub, o !! sub with
                         | Some dv, Some ov => Some (deep_merge dv ov)
                         | None, Some ov => Some ov
                         | Some dv, None => Some dv
                         | None, None => None
                         end) ∧
      (∀ sub dv ov, d !! sub = Some dv → o !! sub = Some ov →
                    is_leaf dv = true ∨ is_leaf ov = true →
                    r !! sub = Some ov).
Proof.
  intros env fs now load_state path override conf key d o Hpath Hov Hload Hd Ho.
  rewrite (load_config_eq _ _ _ _ _ _ Hpath Hov) in Hload.
  assert (∀ sub, merge_map _merge_with d o !! sub =
                 match d !! sub, o !! sub with
                 | Some dv, Some ov => Some (deep_merge dv ov)
                 | None, Some ov => Some ov
                 | Some dv, None => Some dv
                 | None, None => None
                 end) as Hlk.
  { intros sub. rewrite merge_map_lookup. unfold deep_merge.
    destruct (o !! sub), (d !! sub); done. }
  exists (merge_map _merge_with d o). split_and!.
  - assert (py_merge default_conf (JDict override) !! KStr key
            = Some (JDict (merge_map _merge_with d o))) as Hmerged.
    { rewrite py_merge_lookup, Ho, Hd. done. }
    destruct load_state; [|by injection Hload as <-].
    destruct (conf_getitem _ _) as [p|]; [|done]. result_simpl.
    destruct (_load_state fs now p) as [st|]; [|done].
    injection Hload as <-. rewrite lookup_insert_ne; [done|].
    intros [= <-]. vm_compute in Hd. done.
  - apply set_eq. intros sub.
    rewrite elem_of_union, !elem_of_dom, Hlk.
    destruct (d !! sub), (o !! sub); rewrite !is_Some_alt; tauto.
  - exact Hlk.
  - intros sub dv ov Hdv Hovs Hleaf. rewrite Hlk, Hdv, Hovs. f_equal.
    unfold deep_merge. apply merge_item_leaf. simpl. tauto.
Qed.

Lemma load_config_merges_nested_mappings_witness :
  let env : gmap string string := {[ "HOME" := "/home/u" ]} in
  let path := "/home/u/.config/bctl/config.json" in
  let o : gmap string json := {[ "enabled" := JBool false; "sound" := JStr "bell" ]} in
  let override : gmap string json := {[ "notify" := JDict o ]} in
  let fs : gmap string node := {[ path := Regular true false (JsonText (JDict override)) ]} in
  _conf_path env = Ok path ∧
  _read_dict_from_file fs (JStr path) = Ok (JDict override) ∧
  ∃ conf r,
    load_config env fs 1700000000 false = Ok conf ∧
    conf !! KStr "notify" = Some (JDict r) ∧
    r !! "enabled" = Some (JBool false) ∧
    r !! "sound" = Some (JStr "bell") ∧
    r !! "timeout_ms" = Some (JInt 4000).
Proof.
  intros env path o override fs.
  assert (_conf_path env = Ok path) as Hpath by (by vm_compute).
  assert (_read_dict_from_file fs (JStr path) = Ok (JDict override)) as Hov
    by (by vm_compute).
  split; [exact Hpath|]. split; [exact Hov|].
  exists (py_merge default_conf (JDict override)).
  assert (load_config env fs 1700000000 false
          = Ok (py_merge default_conf (JDict override))) as Hload
    by (by rewrite (load_config_eq _ _ _ _ _ _ Hpath Hov)).
  assert (∃ d, default_conf !! KStr "notify" = Some (JDict d) ∧
               d !! "enabled" = Some (JBool true) ∧
               d !! "sound" = None ∧
               d !! "timeout_ms" = Some (JInt 4000)) as (d & Hd & Hd1 & Hd2 & Hd3).
  { eexists. split; [by vm_compute|]. split_and!; by vm_compute. }
  destruct (load_config_merges_nested_mappings env fs 1700000000 false path override
              _ "notify" d o Hpath Hov Hload Hd eq_refl)
    as (r & Hr & _ & Hlk & _).
  exists r. split_and!; [done..| | |].
  - rewrite Hlk, Hd1. by vm_compute.
  - rewrite Hlk, Hd2. by vm_compute.
  - rewrite Hlk, Hd3. by vm_compute.
Defined.

(** X6. Unknown keys are kept. A key of the override that the defaults do
    not have is in the configuration, with the override's value as it
    is. *)
Theorem load_config_keeps_unknown_keys :
  ∀ env fs now load_state path (override : gmap string json) conf key v,
    _conf_path env = Ok path →
    _read_dict_from_file fs (JStr path) = Ok (JDict override) →
    load_config env fs now load_state = Ok conf →
    default_conf !! KStr key = None →
    override !! key = Some v →
    conf !! KStr key = Some v.
Proof.
  intros env fs now load_state path override conf key v Hpath Hov Hload Hd Hk.
  rewrite (load_config_eq _ _ _ _ _ _ Hpath Hov) in Hload.
  assert (py_merge default_conf (JDict override) !! KStr key = Some v) as Hmerged.
  { by rewrite py_merge_lookup, Hk, Hd. }
  destruct load_state; [|by injection Hload as <-].
  destruct (conf_getitem _ _) as [p|]; [|done]. result_simpl.
  destruct (_load_state fs now p) as [st|]; [|done].
  injection Hload as <-. rewrite lookup_insert_ne; [done|].
  intros [= <-]. vm_compute in Hd. done.
Qed.

Lemma load_config_keeps_unknown_keys_witness :
  let env : gmap string string := {[ "HOME" := "/home/u" ]} in
  let path := "/home/u/.config/bctl/config.json" in
  let override : gmap string json := {[ "colour" := JList [JInt 1; JNull] ]} in
  let fs : gmap string node := {[ path := Regular true false (JsonText (JDict override)) ]} in
  _conf_path env = Ok path ∧
  _read_dict_from_file fs (JStr path) = Ok (JDict override) ∧
  load_config env fs 1700000000 false = Ok (py_merge default_conf (JDict override)) ∧
  default_conf !! KStr "colour" = None ∧
  override !! "colour" = Some (JList [JInt 1; JNull]) ∧
  py_merge default_conf (JDict override) !! KStr "colour" = Some (JList [JInt 1; JNull]).
Proof.
  intros env path override fs.
  assert (_conf_path env = Ok path) as Hpath by (by vm_compute).
  assert (_read_dict_from_file fs (JStr path) = Ok (JDict override)) as Hov
    by (by vm_compute).
  assert (load_config env fs 1700000000 false
          = Ok (py_merge default_conf (JDict override))) as Hload
    by (by rewrite (load_config_eq _ _ _ _ _ _ Hpath Hov)).
  assert (default_conf !! KStr "colour" = None) as Hd by (by vm_compute).
  split_and!; [done..|].
  exact (load_config_keeps_unknown_keys env fs 1700000000 false path override _
           "colour" _ Hpath Hov Hload Hd eq_refl).
Defined.

(** ** The state: loading *)

(** X7. The validity rule of the persisted state. For a readable state file
    that holds a mapping whose timestamp (0 when missing) and version (-1
    when missing) are integers: the record is returned as it is when its
    age [now - timestamp] is at most 60 seconds and its version is
    [STATE_VER], and the sentinel is returned otherwise. So an age of
    exactly 60 seconds is accepted, as is a timestamp in the future, and a
    record without a version never is. *)
Theorem _load_state_validity_rule :
  ∀ fs now p rw (d : gmap string json) t v,
    fs !! p = Some (Regular true rw (JsonText (JDict d))) →
    default (JInt 0) (d !! "timestamp") = JInt t →
    default (JInt (-1)) (d !! "ver") = JInt v →
    (now - t ≤ TIME_DIFF_DELTA_THRESHOLD_S ∧ v = STATE_VER →
     _load_state fs now (JStr p) = Ok (JDict d)) ∧
    (TIME_DIFF_DELTA_THRESHOLD_S < now - t ∨ v ≠ STATE_VER →
     _load_state fs now (JStr p) = Ok EMPTY_STATE) ∧
    (now ≤ t → v = STATE_VER → _load_state fs now (JStr p) = Ok (JDict d)) ∧
    (d !! "ver" = None → _load_state fs now (JStr p) = Ok EMPTY_STATE).
Proof.
  intros fs now p rw d t v Hfile Ht Hv.
  rewrite (_load_state_int_timestamp _ _ _ _ _ _ Hfile Ht), Hv.
  unfold TIME_DIFF_DELTA_THRESHOLD_S, STATE_VER in *. simpl.
  assert (v = -1 ∨ d !! "ver" = Some (JInt v)) as Hver.
  { destruct (d !! "ver") as [x|]; simpl in Hv; [right; by subst|left; congruence]. }
  split_and!.
  - intros [Hage ->]. apply Z.leb_le in Hage. by rewrite Hage.
  - intros [Hage | Hne].
    + apply Z.leb_gt in Hage. by rewrite Hage.
    + apply Z.eqb_neq in Hne. rewrite Hne. by rewrite andb_false_r.
  - intros Hfuture ->.
    assert ((now - t <=? 60) = true) as -> by (apply Z.leb_le; lia). done.
  - intros Hnone. rewrite Hnone in Hv. simpl in Hv. injection Hv as <-.
    by rewrite andb_false_r.
Qed.

Lemma _load_state_validity_rule_witness :
  let d : gmap string json :=
    {[ "timestamp" := JInt 1699999940; "ver" := JInt 1;
       "last_set_brightness" := JInt 35 ]} in
  let fs : gmap string node :=
    {[ "/tmp/.bctld.state" := Regular true true (JsonText (JDict d)) ]} in
  fs !! "/tmp/.bctld.state" = Some (Regular true true (JsonText (JDict d))) ∧
  default (JInt 0) (d !! "timestamp") = JInt 1699999940 ∧
  default (JInt (-1)) (d !! "ver") = JInt 1 ∧
  _load_state fs 1700000000 (JStr "/tmp/.bctld.state") = Ok (JDict d) ∧
  _load_state fs 1700000001 (JStr "/tmp/.bctld.state") = Ok EMPTY_STATE.
Proof.
  intros d fs.
  assert (fs !! "/tmp/.bctld.state" = Some (Regular true true (JsonText (JDict d))))
    as Hfile by (by vm_compute).
  assert (default (JInt 0) (d !! "timestamp") = JInt 1699999940) as Ht
    by (by vm_compute).
  assert (default (JInt (-1)) (d !! "ver") = JInt 1) as Hv by (by vm_compute).
  split_and!; [done..| |].
  - apply (proj1 (_load_state_validity_rule fs 1700000000 _ _ d _ _ Hfile Ht Hv)).
    unfold TIME_DIFF_DELTA_THRESHOLD_S, STATE_VER. split; [lia|done].
  - apply (proj1 (proj2
             (_load_state_validity_rule fs 1700000001 _ _ d _ _ Hfile Ht Hv))).
    left. unfold TIME_DIFF_DELTA_THRESHOLD_S. lia.
Defined.

(** X8. No state to read is no error. When the path names no regular file,
    a file the process may not read, a file whose text is no JSON, or a
    file that holds the empty mapping, [_load_state] returns the sentinel
    record. *)
Theorem _load_state_without_record :
  ∀ fs now p,
    fs !! p = None ∨ fs !! p = Some Blocked ∨
    (∃ w c, fs !! p = Some (Regular false w c)) ∨
    (∃ w, fs !! p = Some (Regular true w Garbage)) ∨
    (∃ w, fs !! p = Some (Regular true w (JsonText (JDict ∅)))) →
    _load_state fs now (JStr p) = Ok EMPTY_STATE.
Proof.
  intros fs now p Hfile.
  assert (_read_dict_from_file fs (JStr p) = Ok (JDict ∅)) as Hread.
  { unfold _read_dict_from_file, readable_file.
    destruct Hfile as [-> | [-> | [(w & c & ->) | [(w & ->) | (w & ->)]]]]; done. }
  unfold _load_state. rewrite Hread. unfold py_get. result_simpl.
  rewrite !lookup_empty. unfold py_int_sub, py_le_int. result_simpl.
  unfold default. by destruct (now - 0 <=? TIME_DIFF_DELTA_THRESHOLD_S).
Qed.

Lemma _load_state_without_record_witness :
  let fs : gmap string node := {[ "/tmp/.bctld.state" := Regular false true Garbage ]} in
  (∃ w c, fs !! "/tmp/.bctld.state" = Some (Regular false w c)) ∧
  _load_state fs 1700000000 (JStr "/tmp/.bctld.state") = Ok EMPTY_STATE.
Proof.
  intros fs.
  assert (∃ w c, fs !! "/tmp/.bctld.state" = Some (Regular false w c)) as Hfile.
  { exists true, Garbage. by vm_compute. }
  split; [exact Hfile|].
  apply (_load_state_without_record fs 1700000000 "/tmp/.bctld.state").
  right. right. by left.
Defined.

(** What [_load_state] returns is a mapping. *)
Lemma _load_state_Ok_mapping fs now file_loc s :
  _load_state fs now file_loc = Ok s → ∃ d, s = JDict d.
Proof.
  unfold _load_state. intros Hload.
  destruct (_read_dict_from_file fs file_loc) as [r|]; [|done]. result_simpl.
  destruct r as [| | | | | |d]; try done.
  unfold py_get in Hload. result_simpl.
  destruct (py_int_sub _ _) as [age|]; [|done]. result_simpl.
  destruct (py_le_int _ _) as [fresh|]; [|done]. result_simpl.
  destruct (fresh && _); injection Hload as <-; by eexists.
Qed.

(** X9. The state is loaded from the path the configuration ends up with:
    the override's [state_f_path] when it has one, the default
    [/tmp/.bctld.state] otherwise. [load_config] with the state returns
    exactly when [_load_state] on that path does, then with the loaded
    record under [state], and raises what [_load_state] raises
    otherwise. *)
Theorem load_config_state_path :
  ∀ env fs now path (override : gmap string json),
    _conf_path env = Ok path →
    _read_dict_from_file fs (JStr path) = Ok (JDict override) →
    load_config env fs now true =
    (state ← _load_state fs now
               (default (JStr "/tmp/.bctld.state") (override !! "state_f_path"));
     Ok (<[KStr "state" := state]> (py_merge default_conf (JDict override)))).
Proof.
  intros env fs now path override Hpath Hov.
  rewrite (load_config_eq _ _ _ _ _ _ Hpath Hov).
  assert (conf_getitem (py_merge default_conf (JDict override)) "state_f_path"
          = Ok (default (JStr "/tmp/.bctld.state") (override !! "state_f_path")))
    as ->; [|done].
  unfold conf_getitem. rewrite py_merge_lookup.
  assert (default_conf !! KStr "state_f_path" = Some (JStr "/tmp/.bctld.state"))
    as -> by (by vm_compute).
  destruct (override !! "state_f_path") as [v|]; [|done].
  simpl. by destruct v.
Qed.

Lemma load_config_state_path_witness :
  let env : gmap string string := {[ "HOME" := "/home/u" ]} in
  let path := "/home/u/.config/bctl/config.json" in
  let override : gmap string json := {[ "state_f_path" := JStr "/run/bctl.state" ]} in
  let fs : gmap string node :=
    {[ path := Regular true false (JsonText (JDict override));
       "/run/bctl.state" := Regular true true (JsonText (JList [])) ]} in
  _conf_path env = Ok path ∧
  _read_dict_from_file fs (JStr path) = Ok (JDict override) ∧
  load_config env fs 1700000000 true = Raise AttributeError.
Proof.
  intros env path override fs.
  assert (_conf_path env = Ok path) as Hpath by (by vm_compute).
  assert (_read_dict_from_file fs (JStr path) = Ok (JDict override)) as Hov
    by (by vm_compute).
  split; [exact Hpath|]. split; [exact Hov|].
  rewrite (load_config_state_path env fs 1700000000 path override Hpath Hov).
  assert (_load_state fs 1700000000
            (default (JStr "/tmp/.bctld.state") (override !! "state_f_path"))
          = Raise AttributeError) as -> by (by vm_compute).
  done.
Defined.

(** X10. A configuration loaded with its state meets the precondition of
    [write_state]: [state] holds a mapping, so [write_state] never ends in
    an [AttributeError] on it. *)
Theorem load_config_state_then_write_state :
  ∀ env fs now conf,
    load_config env fs now true = Ok conf →
    (∃ state, conf !! KStr "state" = Some (JDict state)) ∧
    ∀ now' fs', (write_state conf now' fs').1 ≠ Raise AttributeError.
Proof.
  intros env fs now conf Hload.
  apply load_config_Ok in Hload
    as (path & override & _ & _ & p & st & _ & Hst & ->).
  apply _load_state_Ok_mapping in Hst as [d ->].
  assert (<[KStr "state" := JDict d]> (py_merge default_conf override) !! KStr "state"
          = Some (JDict d)) as Hstate by apply lookup_insert_eq.
  split; [by eexists|].
  intros now' fs'. rewrite (write_state_with_state _ _ _ _ Hstate).
  unfold file_write.
  destruct (default JNull _) as [| | | |q| |]; try done.
  by destruct (fs' !! q) as [[? [] ?| |? ?]|].
Qed.

Lemma load_config_state_then_write_state_witness :
  let env : gmap string string := {[ "HOME" := "/home/u" ]} in
  ∃ conf,
    load_config env ∅ 1700000000 true = Ok conf ∧
    (∃ state, conf !! KStr "state" = Some (JDict state)) ∧
    (write_state conf 1700000005 ∅).1 ≠ Raise AttributeError.
Proof.
  intros env.
  assert (_conf_path env = Ok "/home/u/.config/bctl/config.json") as Hpath
    by (by vm_compute).
  assert (_read_dict_from_file ∅ (JStr "/home/u/.config/bctl/config.json")
          = Ok (JDict ∅)) as Hov by (by vm_compute).
  exists (<[KStr "state" := EMPTY_STATE]> (py_merge default_conf (JDict ∅))).
  assert (load_config env ∅ 1700000000 true
          = Ok (<[KStr "state" := EMPTY_STATE]> (py_merge default_conf (JDict ∅))))
    as Hload.
  { rewrite (load_config_eq _ _ _ _ _ _ Hpath Hov).
    assert (conf_getitem (py_merge default_conf (JDict ∅)) "state_f_path"
            = Ok (JStr "/tmp/.bctld.state")) as -> by (by vm_compute).
    assert (_load_state ∅ 1700000000 (JStr "/tmp/.bctld.state") = Ok EMPTY_STATE)
      as Hst by (by vm_compute).
    result_simpl. by rewrite Hst. }
  split; [exact Hload|].
  destruct (load_config_state_then_write_state env ∅ 1700000000 _ Hload)
    as [Hstate Hwrite].
  split; [exact Hstate | apply Hwrite].
Defined.

(** ** The state: writing *)




(** X12. What a successful [write_state] leaves in the file. With a mapping
    under [state], a call that returns has written to the path under
    [state_f_path], a string; the file then holds the record of the three
    fields [timestamp] (the time of the call), [ver] ([STATE_VER]) and
    [last_set_brightness] (the one of the state, [None] when the state has
    none) and nothing else of the state; the file keeps its permissions if
    it was there, and whatever it held is gone. A later call wholly
    replaces an earlier one: after this call, a call at any time has the
    effect it would have had without this one. *)
Theorem write_state_replaces_record :
  ∀ conf (state : gmap string json) now fs fs',
    conf !! KStr "state" = Some (JDict state) →
    write_state conf now fs = (Ok (), fs') →
    ∃ p r,
      conf !! KStr "state_f_path" = Some (JStr p) ∧
      fs' !! p = Some (Regular r true (JsonText (JDict
                   {[ "timestamp" := JInt now;
                      "ver" := JInt STATE_VER;
                      "last_set_brightness" :=
                        default JNull (state !! "last_set_brightness") ]}))) ∧
      ((fs !! p = None ∧ r = true) ∨ ∃ c, fs !! p = Some (Regular r true c)) ∧
      ∀ now2, write_state conf now2 fs' = write_state conf now2 fs.
Proof.
  intros conf state now fs fs' Hstate Hw.
  rewrite (write_state_with_state _ _ _ _ Hstate) in Hw.
  destruct (conf !! KStr "state_f_path") as [[| | | |p| |]|] eqn:Hp; simpl in Hw;
    try done.
  destruct (fs !! p) as [[r [] c| |r c]|] eqn:Hfs; try done.
  - injection Hw as <-. exists p, r. split_and!.
    + done.
    + apply lookup_insert_eq.
    + right. by eexists.
    + intros now2. rewrite !(write_state_with_state _ _ _ _ Hstate), Hp. simpl.
      rewrite lookup_insert_eq, Hfs. by rewrite insert_insert_eq.
  - injection Hw as <-. exists p, true. split_and!.
    + done.
    + apply lookup_insert_eq.
    + by left.
    + intros now2. rewrite !(write_state_with_state _ _ _ _ Hstate), Hp. simpl.
      rewrite lookup_insert_eq, Hfs. by rewrite insert_insert_eq.
Qed.

Lemma write_state_replaces_record_witness :
  let conf : gmap pykey json :=
    {[ KStr "state_f_path" := JStr "/tmp/.bctld.state";
       KStr "state" := JDict {[ "last_set_brightness" := JInt 70;
                                "timestamp" := JInt 5 ]} ]} in
  let fs : gmap string node :=
    {[ "/tmp/.bctld.state" := Regular false true Garbage ]} in
  conf !! KStr "state" = Some (JDict {[ "last_set_brightness" := JInt 70;
                                        "timestamp" := JInt 5 ]}) ∧
  ∃ fs', write_state conf 1700000000 fs = (Ok (), fs') ∧
         fs' !! "/tmp/.bctld.state"
         = Some (Regular false true
                   (JsonText (JDict {[ "timestamp" := JInt 1700000000;
                                       "ver" := JInt STATE_VER;
                                       "last_set_brightness" := JInt 70 ]}))) ∧
         ∀ now2, write_state conf now2 fs' = write_state conf now2 fs.
Proof.
  intros conf fs.
  assert (conf !! KStr "state" = Some (JDict {[ "last_set_brightness" := JInt 70;
                                                "timestamp" := JInt 5 ]}))
    as Hstate by (by vm_compute).
  assert (conf !! KStr "state_f_path" = Some (JStr "/tmp/.bctld.state")) as Hpath
    by (by vm_compute).
  assert (fs !! "/tmp/.bctld.state" = Some (Regular false true Garbage)) as Hfs
    by (by vm_compute).
  split; [exact Hstate|].
  assert (∃ fs', write_state conf 1700000000 fs = (Ok (), fs')) as [fs' Hw].
  { rewrite (write_state_with_state _ _ _ _ Hstate), Hpath. simpl.
    rewrite Hfs. by eexists. }
  exists fs'. split; [exact Hw|].
  destruct (write_state_replaces_record conf _ 1700000000 fs fs' Hstate Hw)
    as (p & r & Hp & Hfile & Hperm & Hagain).
  rewrite Hpath in Hp. injection Hp as <-.
  split; [|exact Hagain].
  destruct Hperm as [[Hnone _] | [c Hc]]; [congruence|].
  rewrite Hfs in Hc. injection Hc as <- _.
  rewrite Hfile. do 4 f_equal.
Defined.

(** ** The command runner: what is returned *)

Lemma bytes_decode_Ok bs out :
  bytes_decode bs = Ok out → list_byte_of_string out = bs.
Proof.
  unfold bytes_decode. destruct (utf8_valid _); [|done].
  intros [= <-]. apply list_byte_of_string_of_list_byte.
Qed.

Lemma utf8_valid_ascii (bs : list N) :
  Forall (λ b, (b < 128)%N) bs → utf8_valid bs = true.
Proof.
  induction 1 as [|b bs Hb _ IH]; [done|]. simpl.
  assert ((b <=? 127)%N = true) as -> by (apply N.leb_le; lia). done.
Qed.

(** X13. What [run_cmd] returns is what the process produced. When the
    process ran to completion and [run_cmd] returns a triple, the two texts
    are, byte for byte, the captured standard output and standard error,
    the status is the exit status of the process, and either that status
    is zero or [throw_on_err] was not set. *)
Theorem run_cmd_returns_captured_output :
  ∀ (str_split : string → list string) (subprocess_exec : list string → proc_result)
    cmd throw_on_err logger stdout stderr returncode out err rc,
    subprocess_exec (match cmd with CmdStr s => str_split s | CmdArgs args => args end)
      = Exited stdout stderr returncode →
    (run_cmd str_split subprocess_exec cmd throw_on_err logger).1 = Ok (out, err, rc) →
    list_byte_of_string out = stdout ∧
    list_byte_of_string err = stderr ∧
    rc = returncode ∧
    (returncode = 0 ∨ throw_on_err = false).
Proof.
  intros str_split subprocess_exec cmd throw_on_err logger stdout stderr returncode
         out err rc Hexec.
  unfold run_cmd. rewrite Hexec.
  destruct (bool_decide (returncode ≠ 0) && throw_on_err) eqn:Hraise; [done|].
  simpl.
  destruct (bytes_decode stdout) as [o|] eqn:Ho; [|done].
  destruct (bytes_decode stderr) as [e|] eqn:He; [|done].
  result_simpl. intros [= <- <- <-].
  split_and!; [by apply bytes_decode_Ok..|done|].
  apply andb_false_iff in Hraise as [Hrc | ->]; [|by right].
  left. apply bool_decide_eq_false in Hrc. by destruct (decide (returncode = 0)).
Qed.

Lemma run_cmd_returns_captured_output_witness :
  let subprocess_exec : list string → proc_result :=
    λ _, Exited [x35; x30; x0a] [] 0 in
  subprocess_exec ["brillo"; "-G"] = Exited [x35; x30; x0a] [] 0 ∧
  ∃ out err rc,
    (run_cmd (λ s, [s]) subprocess_exec (CmdArgs ["brillo"; "-G"]) true false).1
      = Ok (out, err, rc) ∧
    list_byte_of_string out = [x35; x30; x0a] ∧
    list_byte_of_string err = [] ∧
    rc = 0.
Proof.
  intros subprocess_exec. split; [reflexivity|].
  eexists _, _, _. split; [reflexivity|].
  destruct (run_cmd_returns_captured_output (λ s, [s]) subprocess_exec
              (CmdArgs ["brillo"; "-G"]) true false [x35; x30; x0a] [] 0
              _ _ _ eq_refl eq_refl) as (Hout & Herr & Hrc & _).
  split_and!; [exact Hout | exact Herr | exact Hrc].
Defined.

(** X14. Output in ASCII always decodes. When both captured streams hold
    only bytes below 128 and the status is zero or [throw_on_err] is not
    set, [run_cmd] returns the triple of the two streams as texts and the
    status. *)
Theorem run_cmd_ascii_output :
  ∀ (str_split : string → list string) (subprocess_exec : list string → proc_result)
    cmd throw_on_err logger stdout stderr returncode,
    subprocess_exec (match cmd with CmdStr s => str_split s | CmdArgs args => args end)
      = Exited stdout stderr returncode →
    Forall (λ b, (Byte.to_N b < 128)%N) stdout →
    Forall (λ b, (Byte.to_N b < 128)%N) stderr →
    returncode = 0 ∨ throw_on_err = false →
    (run_cmd str_split subprocess_exec cmd throw_on_err logger).1
    = Ok (string_of_list_byte stdout, string_of_list_byte stderr, returncode).
Proof.
  intros str_split subprocess_exec cmd throw_on_err logger stdout stderr returncode
         Hexec Hout Herr Hcase.
  unfold run_cmd. rewrite Hexec.
  assert (bool_decide (returncode ≠ 0) && throw_on_err = false) as ->.
  { destruct Hcase as [-> | ->]; [done|]. by rewrite andb_false_r. }
  simpl. unfold bytes_decode.
  rewrite !utf8_valid_ascii by (by apply Forall_fmap). done.
Qed.

Lemma run_cmd_ascii_output_witness :
  let subprocess_exec : list string → proc_result :=
    λ _, Exited [x35; x30] [x65; x72; x72] 2 in
  subprocess_exec ["brillo"; "-G"] = Exited [x35; x30] [x65; x72; x72] 2 ∧
  (run_cmd (λ s, [s]) subprocess_exec (CmdArgs ["brillo"; "-G"]) false true).1
    = Ok ("50", "err", 2).
Proof.
  intros subprocess_exec. split; [reflexivity|].
  apply (run_cmd_ascii_output (λ s, [s]) subprocess_exec
           (CmdArgs ["brillo"; "-G"]) false true [x35; x30] [x65; x72; x72] 2 eq_refl).
  - repeat constructor.
  - repeat constructor.
  - by right.
Defined.

(** ** The supervisor: further cases *)


(** X15. All tasks succeed. When every task returns within the 5-second
    cap and the supervisor is not cancelled while it waits,
    [wait_and_reraise] returns normally within the cap and calls
    [cancel()] on no task. *)
Theorem supervisor_all_success :
  ∀ sched cancel_at futures w finish,
    tasks_of futures ≠ [] →
    (∀ t, t ∈ tasks_of futures →
          ∃ at_, sched t = Some (at_, Returned) ∧ (at_ ≤ WAIT_TIMEOUT)%nat) →
    (∀ c, cancel_at = Some c → (wake_time sched (tasks_of futures) ≤ c)%nat) →
    asyncio_wait sched cancel_at futures w finish →
    (finish ≤ WAIT_TIMEOUT)%nat ∧
    wait_and_reraise (status_at sched finish) futures w = (Ok (), []).
Proof.
  intros sched cancel_at futures w finish Hfs Hall Hnc Hwait.
  apply asyncio_wait_inv in Hwait
    as [(Hnil & _) | [(_ & _ & Hc & Hlt) | (_ & Hfin & _ & d & p & -> & Hd & Hp)]].
  - done.
  - specialize (Hnc _ Hc). lia.
  - set (fs := tasks_of futures) in *.
    assert (∀ t, t ∈ fs → status_at sched finish t = Some Returned) as Hst.
    { intros t Ht. destruct (Hall t Ht) as (at_ & Hs & Hat).
      unfold status_at. rewrite Hs.
      assert (at_ ≤ finish)%nat as Hle; [|by apply Nat.leb_le in Hle as ->].
      rewrite Hfin. unfold wake_time.
      destruct (foldr_min_cases WAIT_TIMEOUT
                  (omap (failure_time sched) fs
                   ++ option_list (all_finished_time sched fs))) as [-> | Hw];
        [done|].
      apply elem_of_app in Hw as [Hw | Hw].
      - apply list_elem_of_omap in Hw as (t' & Ht' & Hft).
        destruct (Hall t' Ht') as (at' & Hs' & _).
        unfold failure_time in Hft. by rewrite Hs' in Hft.
      - destruct (all_finished_time sched fs) as [m|] eqn:Hm;
          [|by apply elem_of_nil in Hw].
        apply list_elem_of_singleton in Hw. rewrite Hw.
        by eapply all_finished_time_ge. }
    split; [rewrite Hfin; apply wake_time_le_timeout|].
    rewrite wait_and_reraise_returns. f_equal.
    + apply reraise_first_Ok, Forall_forall. intros t Ht.
      apply (wait_done_elem _ _ _ _ _ Hd) in Ht as [_ Ht]. by apply Hst.
    + destruct p as [|t p]; [done|].
      assert (t ∈ t :: p) as Ht by (by left).
      apply (wait_pending_elem _ _ _ _ _ Hp) in Ht as [Hnone Ht].
      by rewrite (Hst t Ht) in Hnone.
Qed.

Lemma supervisor_all_success_witness :
  let sched : task → option (nat * completion) := λ t, Some ((t * 100)%nat, Returned) in
  let futures := Collection [0; 1; 2]%nat in
  tasks_of futures ≠ [] ∧
  asyncio_wait sched None futures (WaitReturns [2; 0; 1]%nat []) 200%nat ∧
  wait_and_reraise (status_at sched 200) futures (WaitReturns [2; 0; 1]%nat [])
    = (Ok (), []).
Proof.
  intros sched futures.
  assert (tasks_of futures ≠ []) as Hfs by done.
  assert (asyncio_wait sched None futures (WaitReturns [2; 0; 1]%nat []) 200%nat)
    as Hwait.
  { split; [done|]. exists [2; 0; 1]%nat, []. split_and!; [done| |done].
    change ([2; 0; 1]%nat ≡ₚ [0; 1; 2]%nat).
    rewrite (Permutation_swap 0%nat 2%nat [1%nat]).
    apply Permutation_skip, Permutation_swap. }
  split; [exact Hfs|]. split; [exact Hwait|].
  apply (supervisor_all_success sched None futures _ 200%nat Hfs); [| |exact Hwait].
  - intros t Ht. exists (t * 100)%nat. split; [done|].
    unfold WAIT_TIMEOUT.
    apply elem_of_cons in Ht as [->|Ht]; [lia|].
    apply elem_of_cons in Ht as [->|Ht]; [lia|].
    apply list_elem_of_singleton in Ht as ->. lia.
  - by intros c [=].
Defined.

(** X16. No tasks. On an empty collection [asyncio.wait] raises its
    [ValueError] before it waits, and on an iterator that yields nothing
    the [AssertionError] of its empty set; [wait_and_reraise] passes
    neither on: the [finally] block finds [tasks_to_cancel] unbound, so the
    call ends in an [UnboundLocalError], having cancelled nothing. *)
Theorem supervisor_no_tasks :
  ∀ sched cancel_at futures w finish status,
    tasks_of futures = [] →
    asyncio_wait sched cancel_at futures w finish →
    w = WaitRaises (match futures with
                    | Collection _ => ValueError
                    | Iterator _ => AssertionError
                    end) ∧
    wait_and_reraise status futures w = (Raise UnboundLocalError, []).
Proof.
  intros sched cancel_at futures w finish status Hnil Hwait.
  apply asyncio_wait_inv in Hwait as [(_ & _ & ->) | [(Hne & _) | (Hne & _)]];
    [|done..].
  by destruct futures.
Qed.

Lemma supervisor_no_tasks_witness :
  tasks_of (Collection []) = [] ∧
  asyncio_wait (λ _, None) None (Collection []) (WaitRaises ValueError) 0%nat ∧
  wait_and_reraise (λ _, None) (Collection []) (WaitRaises ValueError)
    = (Raise UnboundLocalError, []).
Proof.
  assert (asyncio_wait (λ _, None) None (Collection []) (WaitRaises ValueError) 0%nat)
    as Hwait by done.
  split; [reflexivity|]. split; [exact Hwait|].
  exact (proj2 (supervisor_no_tasks (λ _, None) None (Collection []) _ 0%nat
                  (λ _, None) eq_refl Hwait)).
Defined.



(** ** [load_config]: the keys of the result, and a restart *)

(** X18. An override file that holds JSON other than a mapping (an array,
    a string, a number, [true], [false] or [null]) changes no default:
    under every string key the configuration returned without the state
    holds what the defaults hold, and nothing where the defaults have
    nothing. *)
Theorem load_config_non_mapping_override :
  ∀ env fs now path v conf,
    _conf_path env = Ok path →
    _read_dict_from_file fs (JStr path) = Ok v →
    (∀ d, v ≠ JDict d) →
    load_config env fs now false = Ok conf →
    ∀ key, conf !! KStr key = default_conf !! KStr key.
Proof.
  intros env fs now path v conf Hpath Hov Hv Hload key.
  rewrite (load_config_eq _ _ _ _ _ _ Hpath Hov) in Hload.
  injection Hload as <-.
  destruct v as [| | | |s|l|d]; unfold py_merge.
  - reflexivity.
  - reflexivity.
  - reflexivity.
  - reflexivity.
  - apply merge_enumerated_lookup_str.
  - apply merge_enumerated_lookup_str.
  - by destruct (Hv d).
Qed.

Lemma load_config_non_mapping_override_witness :
  let env : gmap string string := {[ "HOME" := "/home/u" ]} in
  let path := "/home/u/.config/bctl/config.json" in
  let v := JList [JStr "log_lvl"; JStr "DEBUG"] in
  let fs : gmap string node := {[ path := Regular true false (JsonText v) ]} in
  _conf_path env = Ok path ∧
  _read_dict_from_file fs (JStr path) = Ok v ∧
  load_config env fs 1700000000 false = Ok (py_merge default_conf v) ∧
  py_merge default_conf v !! KStr "log_lvl" = Some (JStr "INFO").
Proof.
  intros env path v fs.
  assert (_conf_path env = Ok path) as Hpath by (by vm_compute).
  assert (_read_dict_from_file fs (JStr path) = Ok v) as Hov by (by vm_compute).
  assert (load_config env fs 1700000000 false = Ok (py_merge default_conf v)) as Hload
    by (by rewrite (load_config_eq _ _ _ _ _ _ Hpath Hov)).
  split_and!; [done..|].
  rewrite (load_config_non_mapping_override env fs 1700000000 path v _
             Hpath Hov ltac:(done) Hload "log_lvl").
  by vm_compute.
Defined.

(** X19. The keys of the configuration. With a mapping as override, the
    configuration returned has exactly the keys of the defaults and the
    keys of the override, all of them strings: the merge adds no key of its
    own and drops none. *)
Theorem load_config_keys :
  ∀ env fs now load_state path (override : gmap string json) conf,
    _conf_path env = Ok path →
    _read_dict_from_file fs (JStr path) = Ok (JDict override) →
    load_config env fs now load_state = Ok conf →
    (∀ key, is_Some (conf !! KStr key) ↔
            is_Some (default_conf !! KStr key) ∨ is_Some (override !! key)) ∧
    (∀ i, conf !! KInt i = None).
Proof.
  intros env fs now load_state path override conf Hpath Hov Hload.
  rewrite (load_config_eq _ _ _ _ _ _ Hpath Hov) in Hload.
  assert (∀ key, is_Some (py_merge default_conf (JDict override) !! KStr key) ↔
                 is_Some (default_conf !! KStr key) ∨ is_Some (override !! key))
    as Hkeys.
  { intros key. rewrite py_merge_lookup.
    destruct (override !! key), (default_conf !! KStr key);
      rewrite !is_Some_alt; tauto. }
  destruct load_state.
  - destruct (conf_getitem _ _) as [p|]; [|done]. result_simpl.
    destruct (_load_state fs now p) as [st|]; [|done].
    injection Hload as <-. split.
    + intros key. destruct (decide (key = "state")) as [->|Hne].
      * rewrite lookup_insert_eq. split; [|by eexists].
        intros _. left.
        assert (default_conf !! KStr "state" = Some JNull) as ->
          by (by vm_compute).
        by eexists.
      * rewrite lookup_insert_ne by congruence. apply Hkeys.
    + intros i. rewrite lookup_insert_ne by done.
      transitivity (default_conf !! KInt i);
        [apply (py_merge_lookup_int default_conf override) | apply default_conf_int_key].
  - injection Hload as <-. split; [exact Hkeys|].
    intros i. transitivity (default_conf !! KInt i);
      [apply (py_merge_lookup_int default_conf override) | apply default_conf_int_key].
Qed.

Lemma load_config_keys_witness :
  let env : gmap string string := {[ "HOME" := "/home/u" ]} in
  let path := "/home/u/.config/bctl/config.json" in
  let override : gmap string json := {[ "colour" := JInt 3 ]} in
  let fs : gmap string node := {[ path := Regular true false (JsonText (JDict override)) ]} in
  let conf := py_merge default_conf (JDict override) in
  _conf_path env = Ok path ∧
  _read_dict_from_file fs (JStr path) = Ok (JDict override) ∧
  load_config env fs 1700000000 false = Ok conf ∧
  is_Some (conf !! KStr "colour") ∧
  conf !! KStr "shade" = None ∧
  conf !! KInt 0 = None.
Proof.
  intros env path override fs conf.
  assert (_conf_path env = Ok path) as Hpath by (by vm_compute).
  assert (_read_dict_from_file fs (JStr path) = Ok (JDict override)) as Hov
    by (by vm_compute).
  assert (load_config env fs 1700000000 false = Ok conf) as Hload
    by (by rewrite (load_config_eq _ _ _ _ _ _ Hpath Hov)).
  destruct (load_config_keys env fs 1700000000 false path override conf
              Hpath Hov Hload) as [Hkeys Hint].
  split_and!; [done..| | |apply Hint].
  - apply (proj2 (Hkeys "colour")). right. exists (JInt 3). vm_compute. reflexivity.
  - apply eq_None_not_Some. intros Hs.
    destruct (proj1 (Hkeys "shade") Hs) as [Hd | Ho].
    + vm_compute in Hd. destruct Hd as [x Hx]. discriminate Hx.
    + vm_compute in Ho. destruct Ho as [x Hx]. discriminate Hx.
Defined.

(** X20. The state survives a restart, for the 60 seconds it is fresh. Take
    a configuration loaded with its state, write its state at time [now1],
    and load the configuration again, the override file reading as before
    and the state file being readable. A load at a time [now2] with
    [now2 - now1 <= 60] returns the first configuration with, under
    [state], the record that was written: the [last_set_brightness] of the
    first state, the timestamp [now1] and the version [STATE_VER], and
    nothing else. A load later than that returns the first configuration
    with the sentinel under [state]. *)
Theorem state_survives_restart :
  ∀ env fs0 now0 path (override : gmap string json) conf now1 fs fs',
    _conf_path env = Ok path →
    _read_dict_from_file fs0 (JStr path) = Ok (JDict override) →
    load_config env fs0 now0 true = Ok conf →
    write_state conf now1 fs = (Ok (), fs') →
    _read_dict_from_file fs' (JStr path) = Ok (JDict override) →
    (∀ p, conf !! KStr "state_f_path" = Some (JStr p) → is_Some (readable_file fs' p)) →
    ∃ state : gmap string json,
      conf !! KStr "state" = Some (JDict state) ∧
      (∀ now2, now2 - now1 ≤ TIME_DIFF_DELTA_THRESHOLD_S →
         load_config env fs' now2 true =
         Ok (<[KStr "state" :=
                 JDict {[ "timestamp" := JInt now1;
                          "ver" := JInt STATE_VER;
                          "last_set_brightness" :=
                            default JNull (state !! "last_set_brightness") ]}]> conf)) ∧
      (∀ now2, TIME_DIFF_DELTA_THRESHOLD_S < now2 - now1 →
         load_config env fs' now2 true = Ok (<[KStr "state" := EMPTY_STATE]> conf)).
Proof.
  intros env fs0 now0 path override conf now1 fs fs'
         Hpath Hov Hload Hw Hov' Hread.
  rewrite (load_config_eq _ _ _ _ _ _ Hpath Hov) in Hload.
  set (merged := py_merge default_conf (JDict override)) in *.
  unfold conf_getitem in Hload.
  destruct (merged !! KStr "state_f_path") as [sp|] eqn:Hsp; [|done].
  result_simpl.
  destruct (_load_state fs0 now0 sp) as [st|] eqn:Hst; [|done].
  injection Hload as <-.
  apply _load_state_Ok_mapping in Hst as [state ->].
  assert (<[KStr "state" := JDict state]> merged !! KStr "state" = Some (JDict state))
    as Hstate by apply lookup_insert_eq.
  assert (<[KStr "state" := JDict state]> merged !! KStr "state_f_path" = Some sp)
    as Hsp' by (by rewrite lookup_insert_ne).
  rewrite (write_state_with_state _ _ _ _ Hstate), Hsp' in Hw. simpl in Hw.
  apply file_write_Ok in Hw as (p & r & -> & -> & _).
  specialize (Hread p Hsp').
  unfold readable_file in Hread. rewrite lookup_insert_eq in Hread.
  destruct r; [|by destruct Hread].
  set (lsb := default JNull (state !! "last_set_brightness")) in *.
  destruct (state_record_lookup now1 lsb) as (Hts & Hver & Hlsb).
  set (record := {[ "timestamp" := JInt now1; "ver" := JInt STATE_VER;
                    "last_set_brightness" := lsb ]} : gmap string json) in *.
  set (fs' := <[p := Regular true true (json_dumps (JDict record))]> fs) in *.
  assert (∀ now2, load_config env fs' now2 true =
            Ok (<[KStr "state" :=
                    if (now2 - now1 <=? TIME_DIFF_DELTA_THRESHOLD_S)
                    then JDict record else EMPTY_STATE]>
                  (<[KStr "state" := JDict state]> merged))) as Hagain.
  { intros now2. rewrite (load_config_eq _ _ _ _ _ _ Hpath Hov'). fold merged.
    unfold conf_getitem. rewrite Hsp. result_simpl.
    erewrite _load_state_int_timestamp;
      [| apply lookup_insert_eq | by rewrite Hts].
    rewrite Hver. rewrite insert_insert_eq.
    change (py_eq_int (default (JInt (-1)) (Some (JInt STATE_VER))) STATE_VER)
      with true.
    by rewrite andb_true_r. }
  exists state. split_and!.
  - exact Hstate.
  - intros now2 Hage. rewrite Hagain.
    apply Z.leb_le in Hage. by rewrite Hage.
  - intros now2 Hage. rewrite Hagain.
    apply Z.leb_gt in Hage. by rewrite Hage.
Qed.

Lemma state_survives_restart_witness :
  let env : gmap string string := {[ "HOME" := "/home/u" ]} in
  let path := "/home/u/.config/bctl/config.json" in
  let stored : gmap string json :=
    {[ "timestamp" := JInt 1699999990; "ver" := JInt 1;
       "last_set_brightness" := JInt 70 ]} in
  let fs0 : gmap string node :=
    {[ "/tmp/.bctld.state" := Regular true true (JsonText (JDict stored)) ]} in
  let conf := <[KStr "state" := JDict stored]> (py_merge default_conf (JDict ∅)) in
  _conf_path env = Ok path ∧
  _read_dict_from_file fs0 (JStr path) = Ok (JDict ∅) ∧
  load_config env fs0 1700000000 true = Ok conf ∧
  ∃ fs' conf' (state' : gmap string json),
    write_state conf 1700000010 fs0 = (Ok (), fs') ∧
    load_config env fs' 1700000020 true = Ok conf' ∧
    conf' !! KStr "state" = Some (JDict state') ∧
    state' !! "last_set_brightness" = Some (JInt 70) ∧
    state' !! "timestamp" = Some (JInt 1700000010) ∧
    state' !! "ver" = Some (JInt STATE_VER).
Proof.
  intros env path stored fs0 conf.
  assert (_conf_path env = Ok path) as Hpath by (vm_compute; reflexivity).
  assert (_read_dict_from_file fs0 (JStr path) = Ok (JDict ∅)) as Hov
    by (vm_compute; reflexivity).
  assert (conf_getitem (py_merge default_conf (JDict ∅)) "state_f_path"
          = Ok (JStr "/tmp/.bctld.state")) as Hsp by (vm_compute; reflexivity).
  assert (_load_state fs0 1700000000 (JStr "/tmp/.bctld.state") = Ok (JDict stored))
    as Hst by (vm_compute; reflexivity).
  assert (load_config env fs0 1700000000 true = Ok conf) as Hload.
  { rewrite (load_config_eq _ _ _ _ _ _ Hpath Hov), Hsp.
    result_simpl. rewrite Hst. reflexivity. }
  split; [exact Hpath|]. split; [exact Hov|]. split; [exact Hload|].
  assert (conf !! KStr "state" = Some (JDict stored)) as Hstate
    by apply lookup_insert_eq.
  assert (conf !! KStr "state_f_path" = Some (JStr "/tmp/.bctld.state")) as Hsp'.
  { subst conf. rewrite lookup_insert_ne by discriminate.
    unfold conf_getitem in Hsp.
    destruct (py_merge default_conf (JDict ∅) !! KStr "state_f_path");
      [|discriminate Hsp].
    injection Hsp as ->. reflexivity. }
  set (record := {[ "timestamp" := JInt 1700000010; "ver" := JInt STATE_VER;
                    "last_set_brightness" :=
                      default JNull (stored !! "last_set_brightness") ]}
                 : gmap string json).
  set (fs' := <[ "/tmp/.bctld.state" :=
                   Regular true true (json_dumps (JDict record)) ]> fs0).
  assert (write_state conf 1700000010 fs0 = (Ok (), fs')) as Hw.
  { rewrite (write_state_with_state _ _ _ _ Hstate), Hsp'.
    change (default JNull (Some (JStr "/tmp/.bctld.state")))
      with (JStr "/tmp/.bctld.state").
    unfold file_write.
    assert (fs0 !! "/tmp/.bctld.state"
            = Some (Regular true true (JsonText (JDict stored)))) as ->
      by apply lookup_singleton_eq.
    reflexivity. }
  destruct (state_survives_restart env fs0 1700000000 path ∅ conf 1700000010 fs0 fs'
              Hpath Hov Hload Hw) as (state & Hs & Hfresh & _).
  - unfold _read_dict_from_file, readable_file, fs'.
    rewrite lookup_insert_ne by discriminate.
    unfold fs0. rewrite lookup_singleton_ne by discriminate. reflexivity.
  - intros p Hp. rewrite Hsp' in Hp. injection Hp as <-.
    unfold readable_file, fs'. rewrite lookup_insert_eq. eexists. reflexivity.
  - rewrite Hstate in Hs. injection Hs as <-.
    exists fs', (<[KStr "state" := JDict record]> conf), record.
    destruct (state_record_lookup 1700000010
                (default JNull (stored !! "last_set_brightness")))
      as (Hts & Hver & Hlsb).
    split; [exact Hw|]. split.
    { apply Hfresh. unfold TIME_DIFF_DELTA_THRESHOLD_S. lia. }
    split; [apply lookup_insert_eq|].
    split; [|split; [exact Hts | exact Hver]].
    unfold record. rewrite Hlsb. vm_compute. reflexivity.
Defined.
